(** * The course search pipeline: result models and the indexer

    A shallow embedding of [common/djangoapps/search/models.py] and
    [common/djangoapps/search/es_requests.py].

    The code is Python 2: [/] on two [int]s is floor division.  Text is
    taken to be ASCII, a sequence of bytes: [lower] only touches [A-Z],
    and [split()] and [strip()] cut at the six ASCII white-space
    characters.  Python [int]s are [Z]; text is [string]; dictionaries
    are [gmap]s; exceptions are the [Raise] results of an error monad
    that also carries the module's global cache and the network calls
    made. *)

From Stdlib Require Import ZArith Ascii String.
From stdpp Require Import base strings list gmap.

Local Open Scope string_scope.
Local Open Scope list_scope.
Local Open Scope Z_scope.

(** ** Python's text primitives *)

Module Py.

(** [len(s)], as a Python [int]. *)
Definition len (s : string) : Z := Z.of_nat (String.length s).

(** [len(l)] on a list. *)
Definition llen {A} (l : list A) : Z := Z.of_nat (length l).

Definition code (c : ascii) : nat := nat_of_ascii c.

Definition is_upper (c : ascii) : bool :=
  (Nat.leb 65 (code c) && Nat.leb (code c) 90)%bool.

Definition lower_char (c : ascii) : ascii :=
  if is_upper c then ascii_of_nat (code c + 32) else c.

(** [s.lower()] *)
Fixpoint lower (s : string) : string :=
  match s with
  | EmptyString => EmptyString
  | String c s' => String (lower_char c) (lower s')
  end.

(** The characters [str.split()] and [str.strip()] treat as blank:
    space, [\t], [\n], [\x0b], [\x0c], [\r]. *)
Definition is_space (c : ascii) : bool :=
  (Nat.eqb (code c) 32 || (Nat.leb 9 (code c) && Nat.leb (code c) 13))%bool.

(** [string.punctuation], the 32 ASCII punctuation marks, by code:
    33-47, 58-64, 91-96 and 123-126. *)
Definition is_punctuation (c : ascii) : bool :=
  let n := code c in
  ((Nat.leb 33 n && Nat.leb n 47) || (Nat.leb 58 n && Nat.leb n 64)
   || (Nat.leb 91 n && Nat.leb n 96) || (Nat.leb 123 n && Nat.leb n 126))%bool.

(** Keep the characters of [s] that satisfy [keep]. *)
Fixpoint filter_chars (keep : ascii -> bool) (s : string) : string :=
  match s with
  | EmptyString => EmptyString
  | String c s' =>
      if keep c then String c (filter_chars keep s') else filter_chars keep s'
  end.

(** [a.startswith(p)], read as "[p] is a prefix of [a]". *)
Fixpoint starts_with (p a : string) : bool :=
  match p, a with
  | EmptyString, _ => true
  | String _ _, EmptyString => false
  | String x p', String y a' => (Ascii.eqb x y && starts_with p' a')%bool
  end.

(** [needle in hay] on text. *)
Fixpoint str_in (needle hay : string) : bool :=
  (starts_with needle hay ||
   match hay with
   | EmptyString => false
   | String _ hay' => str_in needle hay'
   end)%bool.

(** [s.split()]: the maximal runs of non-blank characters, in order.
    [cur] is the word being read. *)
Fixpoint split_from (cur : string) (s : string) : list string :=
  match s with
  | EmptyString => match cur with EmptyString => [] | _ => [cur] end
  | String c s' =>
      if is_space c then
        match cur with
        | EmptyString => split_from EmptyString s'
        | _ => cur :: split_from EmptyString s'
        end
      else split_from (cur +:+ String c EmptyString) s'
  end.

Definition split (s : string) : list string := split_from EmptyString s.

(** [sep.join(l)] *)
Fixpoint join (sep : string) (l : list string) : string :=
  match l with
  | [] => EmptyString
  | [x] => x
  | x :: l' => x +:+ sep +:+ join sep l'
  end.

(** [l[:n]]: the first [n] items, and for a negative [n] all but the
    last [-n]. *)
Definition slice_to {A} (n : Z) (l : list A) : list A :=
  if n <? 0 then take (Z.to_nat (llen l + n)) l else take (Z.to_nat n) l.

(** [s.split(sep)] for a one-character [sep]: every separator cuts,
    so empty pieces are kept and [""] splits into [[""]]. *)
Fixpoint split_on_from (sep : ascii) (cur : string) (s : string)
    : list string :=
  match s with
  | EmptyString => [cur]
  | String c s' =>
      if Ascii.eqb c sep then cur :: split_on_from sep EmptyString s'
      else split_on_from sep (cur +:+ String c EmptyString) s'
  end.

Definition split_on (sep : ascii) (s : string) : list string :=
  split_on_from sep EmptyString s.

(** [s.strip()] *)
Fixpoint lstrip (s : string) : string :=
  match s with
  | EmptyString => EmptyString
  | String c s' => if is_space c then lstrip s' else s
  end.

Fixpoint rstrip (s : string) : string :=
  match s with
  | EmptyString => EmptyString
  | String c s' =>
      match rstrip s' with
      | EmptyString => if is_space c then EmptyString else String c EmptyString
      | r => String c r
      end
  end.

Definition strip (s : string) : string := rstrip (lstrip s).

(** [s[n:]] for [n >= 0] *)
Fixpoint drop_chars (n : nat) (s : string) : string :=
  match n, s with
  | O, _ => s
  | S _, EmptyString => EmptyString
  | S n', String _ s' => drop_chars n' s'
  end.

(** [any(f(x) for x in l)] *)
Definition any {A} (f : A -> bool) (l : list A) : bool := existsb f l.

End Py.

(** ** [search/models.py] *)

Module Models.

Import Py.

(** [_match(words)]: [words] is the pair [(words[0], words[1])]. *)
Definition contained (w0 w1 : string) : bool :=
  (str_in w0 w1 || str_in w1 w0)%bool.

Definition near_size (w0 w1 : string) : bool :=
  Z.abs (len w0 - len w1) <? (len w0 + len w1) / 6.

Definition _match (words : string * string) : bool :=
  (contained words.1 words.2 && near_size words.1 words.2)%bool.

(** [depunctuation]: [word.translate(None, string.punctuation)], and on
    [unicode] text the translation that maps every punctuation mark to
    [None]; both delete the punctuation marks. *)
Definition depunctuation (word : string) : string :=
  filter_chars (fun c => negb (is_punctuation c)) word.

Definition wrapping (tag css_class : string) : string * string :=
  ("<" +:+ tag +:+ " class=" +:+ css_class +:+ ">", "</" +:+ tag +:+ ">").

Definition wrap (tag css_class text : string) : string :=
  (wrapping tag css_class).1 +:+ text +:+ (wrapping tag css_class).2.

(** [query_set]: the lowered query words.  The code holds them in a
    [set] and only asks [any(...)] of it, which neither order nor
    repetition can change, so the list of words stands for the set. *)
Definition query_set (query : string) : list string :=
  map lower (split query).

Definition highlighted (query word : string) : bool :=
  any (fun query_word => _match (query_word, depunctuation (lower word)))
      (query_set query).

(** The body of the [for word in response.split()] loop. *)
Fixpoint highlight_words (query tag css_class : string)
    (words : list string) (bold_response : string) : string :=
  match words with
  | [] => bold_response
  | word :: rest =>
      highlight_words query tag css_class rest
        (if highlighted query word
         then bold_response +:+ wrap tag css_class word +:+ " "
         else bold_response +:+ word +:+ " ")
  end.

Definition _match_highlighter_with (query response tag css_class : string)
    : string :=
  highlight_words query tag css_class (split response) "".

(** [_match_highlighter(query, response)] with the default [tag="b"]
    and [css_class="highlight"]. *)
Definition _match_highlighter (query response : string) : string :=
  _match_highlighter_with query response "b" "highlight".

(** *** [_snippet_generator]

    [nltk]'s punkt sentence tokenizer is not part of the repository:
    [tokenize] stands for [punkt.tokenize]. *)
Section Snippet.

Variable tokenize : string -> list string.

(** [substrings] and [query_container] *)
Definition substrings (query : string) : list string :=
  map lower (split query).

Definition query_container (query sentence : string) : bool :=
  any (fun substring => str_in substring (lower sentence))
      (substrings query).

(** [len(response.split()) + len(sentence.split()) < soft_max] *)
Definition fits (soft_max : Z) (response sentence : string) : bool :=
  llen (split response) + llen (split sentence) <? soft_max.

(** [" " + " ".join(sentence.split()[:word_margin])] *)
Definition margin_of (word_margin : Z) (sentence : string) : string :=
  " " +:+ join " " (slice_to word_margin (split sentence)).

(** The second loop, [if tripped is False: for sentence in sentences]:
    add full sentences while they fit, then the margin of the first
    one that does not, and [break]. *)
Fixpoint accumulate (soft_max word_margin : Z) (sentences : list string)
    (response : string) : string :=
  match sentences with
  | [] => response
  | sentence :: rest =>
      if fits soft_max response sentence
      then accumulate soft_max word_margin rest (response +:+ " " +:+ sentence)
      else response +:+ margin_of word_margin sentence
  end.

(** The first loop, [for sentence in sentences], on the pair
    [(tripped, response)]; the second component of the [else] is the
    [break]. *)
Fixpoint first_loop (query : string) (soft_max word_margin : Z)
    (sentences : list string) (tripped : bool) (response : string)
    : bool * string :=
  match sentences with
  | [] => (tripped, response)
  | sentence :: rest =>
      if negb tripped then
        if query_container query sentence
        then first_loop query soft_max word_margin rest true
               (response +:+ sentence)
        else first_loop query soft_max word_margin rest tripped response
      else
        if fits soft_max response sentence
        then first_loop query soft_max word_margin rest tripped
               (response +:+ " " +:+ sentence)
        else (tripped, response +:+ margin_of word_margin sentence)
  end.

Definition _snippet_generator (transcript query : string)
    (soft_max word_margin : Z) (bold : bool) : string :=
  let sentences := tokenize transcript in
  let '(tripped, response) :=
    first_loop query soft_max word_margin sentences false "" in
  let response :=
    if tripped then response
    else accumulate soft_max word_margin sentences response in
  if bold then _match_highlighter query response else response.

(** The call with the defaults [soft_max=50, word_margin=25, bold=True]. *)
Definition _snippet_generator_default (transcript query : string) : string :=
  _snippet_generator transcript query 50 25 true.

End Snippet.

(** *** [SearchResult] and [SearchResults]

    A hit keeps its [_source] dictionary in [data]; [filter] reads
    nothing else of it.  The relevance [score] is a float and is left
    out. *)
Record SearchResult := {
  data : gmap string string;
  url : string;
  thumbnail : string;
  snippets : string
}.

(** [filters] maps a field to the wanted value, which may be [None]. *)
Record SearchResults := {
  entries : list SearchResult;
  sort : option string;
  query : string;
  filters : gmap string (option string)
}.

(** [strip_punc = lambda s: punc.sub("", s).lower()], where [punc] is
    the character class of [string.punctuation]. *)
Definition strip_punc (s : string) : string :=
  lower (filter_chars (fun c => negb (is_punctuation c)) s).

(** [entry.data.get(field, "")] *)
Definition field_text (entry : SearchResult) (field : string) : string :=
  default "" (data entry !! field).

Definition to_filter (value : string) (entry : SearchResult)
    (field : string) : bool :=
  str_in (strip_punc value) (strip_punc (field_text entry field)).

(** [SearchResults.filter(field, value)].  The entries are objects
    compared by identity, and each is one item of [self.entries]: the
    returned [set] is the set of their positions in that list. *)
Definition filter (self : SearchResults) (field : string)
    (value : option string) : gset nat :=
  let value := match value with None => "" | Some v => v end in
  list_to_set
    (omap (fun '(i, entry) => if to_filter value entry field then Some i else None)
          (imap pair (entries self))).

(** The loop of [filter_and_sort]: [full_results |= self.filter(...)]
    over [self.filters.items()]. *)
Definition full_results (self : SearchResults) : gset nat :=
  fold_left (fun acc '(field, value) => acc ∪ filter self field value)
            (map_to_list (filters self)) ∅.

End Models.

(** ** The regular expressions of the problem extractor

    Python's [re] is not part of the repository; the three shapes of
    pattern that [searchable_text_from_problem_data] uses are written out
    as scanners.  [.] is any character but a newline. *)

Module Re.

Import Py.

Definition newline : ascii := ascii_of_nat 10.
Definition backslash : ascii := ascii_of_nat 92.

Definition is_dot (c : ascii) : bool := negb (Ascii.eqb c newline).

(** [.*?] followed by the literal [close], tried at the start of [s]:
    the shortest run of [.] after which [close] stands.  Returns the
    run and the number of characters matched, [close] included. *)
Fixpoint lazy_until (close : string) (s : string) (group : string)
    : option (string * nat) :=
  if starts_with close s
  then Some (group, (String.length group + String.length close)%nat)
  else
    match s with
    | EmptyString => None
    | String c s' =>
        if is_dot c then lazy_until close s' (group +:+ String c EmptyString)
        else None
    end.

(** [opening(.*?)closing] at the start of [s]: the group and the length
    of the whole match. *)
Definition tagged_at (opening closing : string) (s : string)
    : option (string * nat) :=
  if starts_with opening s then
    match lazy_until closing (drop_chars (String.length opening) s) "" with
    | Some (group, n) => Some (group, (String.length opening + n)%nat)
    | None => None
    end
  else None.

(** [re.findall]: the groups of the matches found from left to right,
    none overlapping.  [skip] is the number of characters of the last
    match still to pass over.  No pattern here matches the empty
    string. *)
Fixpoint findall_from (match_at : string -> option (string * nat))
    (skip : nat) (s : string) : list string :=
  match s with
  | EmptyString => []
  | String _ s' =>
      match skip with
      | S k => findall_from match_at k s'
      | O =>
          match match_at s with
          | Some (group, n) => group :: findall_from match_at (pred n) s'
          | None => findall_from match_at 0 s'
          end
      end
  end.

(** [re.findall(r"<tag>(.*?)</tag>", s)] for given delimiters. *)
Definition findall (opening closing : string) (s : string) : list string :=
  findall_from (tagged_at opening closing) 0 s.

(** [re.sub(pattern, "", s)]: [match_len] gives the length of the match
    at the start of its argument, if there is one. *)
Fixpoint delete_from (match_len : string -> option nat)
    (skip : nat) (s : string) : string :=
  match s with
  | EmptyString => EmptyString
  | String c s' =>
      match skip with
      | S k => delete_from match_len k s'
      | O =>
          match match_len s with
          | Some n => delete_from match_len (pred n) s'
          | None => String c (delete_from match_len 0 s')
          end
      end
  end.

Definition delete (match_len : string -> option nat) (s : string) : string :=
  delete_from match_len 0 s.

(** Length of the longest prefix whose characters all satisfy [p]. *)
Fixpoint span (p : ascii -> bool) (s : string) : nat :=
  match s with
  | EmptyString => O
  | String c s' => if p c then S (span p s') else O
  end.

(** The first substitution's pattern: a backslash, a shortest run of
    [.] and a backslash. *)
Definition escaped_at (s : string) : option nat :=
  match s with
  | EmptyString => None
  | String c s' =>
      if Ascii.eqb c backslash then
        match lazy_until (String backslash EmptyString) s' "" with
        | Some (_, n) => Some (S n)
        | None => None
        end
      else None
  end.

(** The character class of the second substitution: letters, digits,
    slash, dot, equals sign, space, both quotes, underscore, hyphen. *)
Definition in_tag_class (c : ascii) : bool :=
  let n := code c in
  ((Nat.leb 97 n && Nat.leb n 122) || (Nat.leb 65 n && Nat.leb n 90)
   || (Nat.leb 48 n && Nat.leb n 57)
   || Nat.eqb n 47 || Nat.eqb n 46 || Nat.eqb n 61 || Nat.eqb n 32
   || Nat.eqb n 34 || Nat.eqb n 39 || Nat.eqb n 95 || Nat.eqb n 45)%bool.

(** A [<], one or more characters of the class, a [>]. The class holds
    neither bracket, so the run is the longest one. *)
Definition tag_at (s : string) : option nat :=
  match s with
  | EmptyString => None
  | String c s' =>
      if Ascii.eqb c "<"%char then
        let n := span in_tag_class s' in
        if (Nat.leb 1 n && starts_with ">" (drop_chars n s'))%bool
        then Some (n + 2)%nat else None
      else None
  end.

(** The third substitution's pattern: a character [.] and at least
    four more copies of it, as many as there are. *)
Definition repeat_at (s : string) : option nat :=
  match s with
  | EmptyString => None
  | String c s' =>
      if is_dot c then
        let n := span (Ascii.eqb c) s' in
        if Nat.leb 4 n then Some (S n) else None
      else None
  end.

End Re.

(** ** [search/es_requests.py] *)

Module EsRequests.

Import Py.

(** *** Exceptions and the state the module works on *)

Inductive exn :=
| RequestException
| AttributeError
| IndexError
| KeyError
| TypeError
| ValueError
| UnboundLocalError
| ReError.

Inductive result (A : Type) :=
| Return (a : A)
| Raise (e : exn).
Arguments Return {A} a.
Arguments Raise {A} e.

#[global] Instance exn_eq_dec : EqDecision exn.
Proof. solve_decision. Defined.

(** The keyword arguments [flaky_request] is called with. *)
Record kwargs := {
  kw_attempts : option Z;
  kw_data : option string
}.

(** One call of [requests.<method>(url, **kwargs)]. *)
Record call := {
  c_method : string;
  c_url : string;
  c_kwargs : kwargs
}.

Record Response := { content : string }.

(** What a call of [requests] does: it answers, or raises. *)
Inductive outcome :=
| Responds (r : Response)
| Throws (e : exn).

(** [MONGO_COURSE_CACHE] and the calls made on the network so far. *)
Record world := {
  MONGO_COURSE_CACHE : gmap string string;
  wire : list call
}.

Definition M (A : Type) : Type := world -> result A * world.

Definition ret {A} (a : A) : M A := fun w => (Return a, w).
Definition raise {A} (e : exn) : M A := fun w => (Raise e, w).
Definition bind {A B} (m : M A) (k : A -> M B) : M B :=
  fun w =>
    match m w with
    | (Return a, w') => k a w'
    | (Raise e, w') => (Raise e, w')
    end.
Definition lift {A} (r : result A) : M A := fun w => (r, w).

Notation "'do' x <- m ; k" := (bind m (fun x => k))
  (at level 10, x name, m at level 100, k at level 200).

(** *** The records read from Mongo and written to Elasticsearch *)

(** A module's [_id]. *)
Record location := {
  tag : string;
  org : string;
  course : string;
  category : string;
  name : string
}.

(** What a [data] entry can hold: text as pymongo returns it
    ([unicode]), a byte string (the [""] defaults of the code are of
    this kind), or a nested dictionary with its own optional [data]
    text. *)
Inductive value :=
| Text (s : string)
| Bytes (s : string)
| Dict (inner : option string).

(** [definition] is [None] when the key is absent, [Some None] when
    the dictionary has no [data]; [metadata] likewise for
    [display_name]. *)
Record mongo_module := {
  _id : location;
  definition : option (option value);
  metadata : option (option string)
}.

(** The value of [searchable_text]: a string, or the list [[""]] that
    [find_transcript_for_video_module] hands back on its early exits. *)
Inductive text_value :=
| Str (s : string)
| StrList (l : list string).

#[global] Instance text_value_eq_dec : EqDecision text_value.
Proof. solve_decision. Defined.

(** The dictionary [basic_dict] returns. *)
Record document := {
  id : string;
  hash : string;
  display_name : string;
  course_id : string;
  searchable_text : text_value;
  thumbnail : string;
  type_hash : string
}.

(** [data.values()] *)
Definition values (data : document) : list text_value :=
  [Str (id data); Str (hash data); Str (display_name data);
   Str (course_id data); searchable_text data; Str (thumbnail data);
   Str (type_hash data)].

(** Truth value of a string or a list: not empty. *)
Definition truthy (v : text_value) : bool :=
  match v with
  | Str s => negb (String.eqb s "")
  | StrList l => match l with [] => false | _ => true end
  end.

(** *** Object identity

    [is] and [is not] compare objects, not their text.  A string is
    modelled with the address of its object where the code asks for
    identity.  The literal ["Explanation"] is a constant of the
    module, at address 0.  [re.findall] cuts each group out of the
    subject as a new object (CPython shares a slice only when it is the
    whole subject, empty, or a single character, and a tag's body of
    eleven characters is none of these): its results sit at the
    addresses after 0. *)
Record str_object := {
  address : nat;
  chars : string
}.

Definition Explanation : str_object :=
  {| address := 0; chars := "Explanation" |}.

Definition is_not (a b : str_object) : bool :=
  negb (Nat.eqb (address a) (address b)).

Definition created (l : list string) : list str_object :=
  imap (fun i s => {| address := S i; chars := s |}) l.

(** *** What the module reaches outside the repository *)

Class Services := {
  (** [requests]: what the call [c] does once the calls in the list
      have been made. *)
  request : list call -> call -> outcome;
  (** [settings.ES_DATABASE] *)
  es_url : string;
  (** [json.dumps(data)] on a document, [json.dumps] on an [_id], and
      [hashlib.sha1(s).hexdigest()]. *)
  json_dumps : document -> string;
  json_dumps_id : location -> string;
  sha1_hexdigest : string -> string;
  (** Mongo.  [find_modules_for_course] is the cursor's content;
      [find_course] is the [name] of the course element that
      [course_name_from_mongo_module] looks up, [None] when [find_one]
      finds nothing; [find_chunk pattern] is the decoded [data] of the
      chunk that [find_one] gives for the file names matching the
      regular expression [pattern]. *)
  find_modules_for_course : string -> list mongo_module;
  find_course : string -> option string;
  find_chunk : string -> option string;
  (** [re.compile(pattern)]: whether [pattern] is a regular expression;
      [re.error], here [ReError], is raised when it is not. *)
  re_compiles : string -> bool;
  (** [json.loads(text)["text"]]; a [ValueError] is raised on text that
      is not JSON. *)
  json_loads_text : string -> result (list string);
  (** The [pdf] branches of [get_searchable_text] and [get_thumbnail]
      go through pdfminer and ImageMagick. *)
  pdf_searchable_text : mongo_module -> result string;
  pdf_thumbnail : mongo_module -> result string
}.

(** *** [flaky_request], [ElasticDatabase] and [MongoIndexer] *)

Section Services.

Context {services : Services}.

Definition sent (c : call) (w : world) : world :=
  {| MONGO_COURSE_CACHE := MONGO_COURSE_CACHE w; wire := wire w ++ [c] |}.

(** The [for _ in range(attempts)] loop: [try] the call, [break] on
    an answer, [pass] on a [RequestException]; anything else that is
    raised leaves the function. *)
Fixpoint attempt_loop (n : nat) (c : call) (response : option Response)
    (w : world) : result (option Response) * world :=
  match n with
  | O => (Return response, w)
  | S n' =>
      match request (wire w) c with
      | Responds r => (Return (Some r), sent c w)
      | Throws RequestException => attempt_loop n' c response (sent c w)
      | Throws e => (Raise e, sent c w)
      end
  end.

Definition flaky_request (method url : string) (kw : kwargs)
    : M (option Response) :=
  let attempts := default 2 (kw_attempts kw) in
  do response <- attempt_loop (Z.to_nat attempts)
                   {| c_method := method; c_url := url; c_kwargs := kw |}
                   None;
  match response with
  | None => ret None
  | Some r => ret (Some r)
  end.

(** [ElasticDatabase.index_data] *)
Definition index_data (index : string) (data : document)
    (type_ id_ : string) : M (option Response) :=
  let full_url := join "/" [es_url; index; type_; id_] in
  flaky_request "post" full_url
    {| kw_attempts := None; kw_data := Some (json_dumps data) |}.

(** [ElasticDatabase.bulk_index] *)
Definition bulk_index (all_data : string) : M (option Response) :=
  let url := es_url +:+ "/_bulk" in
  flaky_request "post" url
    {| kw_attempts := None; kw_data := Some all_data |}.

(** [ElasticDatabase.delete_index] *)
Definition delete_index (index : string) : M (option Response) :=
  let full_url := join "/" [es_url; index] in
  flaky_request "delete" full_url
    {| kw_attempts := None; kw_data := None |}.

(** [video_module.get("definition", {"data": ""}).get("data", "")] *)
Definition definition_data (m : mongo_module) : value :=
  match definition m with
  | Some (Some v) => v
  | _ => Bytes ""
  end.

(** [if isinstance(data, dict): data = data.get("data", "")] *)
Definition unnest (data : value) : value :=
  match data with
  | Dict (Some s) => Text s
  | Dict None => Bytes ""
  | _ => data
  end.

Definition text_of (data : value) : string :=
  match data with
  | Text s | Bytes s => s
  | Dict _ => ""
  end.

(** [(entry + ":").split(":")[0]] and [...[1]] *)
Definition entry_pair (entry : string) : string * string :=
  let parts := split_on ":" (entry +:+ ":") in
  (default "" (parts !! 0%nat), default "" (parts !! 1%nat)).

(** The dictionary comprehension: a later entry with the same speed
    replaces the earlier one. *)
Definition speed_map (uuids : list string) : gmap string string :=
  fold_left (fun m entry => <[(entry_pair entry).1 := (entry_pair entry).2]> m)
            uuids ∅.

(** [[value for key, value in items if "1.0" in key][0]] *)
Definition first_normal_speed (items : list (string * string))
    : result string :=
  match List.filter (fun item => str_in "1.0" item.1) items with
  | item :: _ => Return item.2
  | [] => Raise IndexError
  end.

(** [uuid_from_video_module]: [Return None] is the [False] of the
    code.  [speed_map.items()] comes in the order of the map. *)
Definition uuid_from_video_module (video_module : mongo_module)
    : result (option string) :=
  let data := unnest (definition_data video_module) in
  let uuids := split_on "," (text_of data) in
  if llen uuids =? 1 then Return None
  else
    match first_normal_speed (map_to_list (speed_map uuids)) with
    | Return uuid => Return (Some uuid)
    | Raise e => Raise e
    end.

(** [filter(None, l)] on strings *)
Definition non_empty (l : list string) : list string :=
  List.filter (fun s => negb (String.eqb s "")) l.

Definition find_transcript_for_video_module (video_module : mongo_module)
    : result text_value :=
  let data := unnest (definition_data video_module) in
  match data with
  | Text _ =>
      match uuid_from_video_module video_module with
      | Raise e => Raise e
      | Return None => Return (StrList [""])
      | Return (Some uuid) =>
          if String.eqb uuid "" then Return (StrList [""])
          else
            let name_pattern := ".*?" +:+ uuid +:+ ".*?" in
            if negb (re_compiles name_pattern) then Raise ReError
            else
              match find_chunk name_pattern with
              | None => Return (StrList [""])
              | Some chunk =>
                  if str_in "com.apple.quar" chunk then Return (StrList [""])
                  else
                    match json_loads_text chunk with
                    | Return texts => Return (Str (join " " (non_empty texts)))
                    | Raise ValueError => Return (Str chunk)
                    | Raise e => Raise e
                    end
              end
      end
  | _ => Return (StrList [""])
  end.

(** The body of [searchable_text_from_problem_data] on the text of
    [data]. *)
Definition problem_text (data : string) : string :=
  let paragraphs :=
    join " " (map chars
                (List.filter (fun text => is_not text Explanation)
                             (created (Re.findall "<p>" "</p>" data)))) in
  let paragraphs := paragraphs +:+ " " in
  let paragraphs := paragraphs +:+ join " " (Re.findall "<text>" "</text>" data) in
  let cleaned_text :=
    filter_chars (fun c => negb (Ascii.eqb c Re.backslash))
                 (Re.delete Re.escaped_at paragraphs) in
  let remove_tags := Re.delete Re.tag_at cleaned_text in
  let remove_repetitions := Re.delete Re.repeat_at remove_tags in
  remove_repetitions.

(** [mongo_element["definition"]["data"]] where a string is needed. *)
Definition definition_text (m : mongo_module) : result string :=
  match definition m with
  | Some (Some (Text data)) | Some (Some (Bytes data)) => Return data
  | Some (Some (Dict _)) => Raise TypeError
  | _ => Raise KeyError
  end.

Definition searchable_text_from_problem_data (mongo_element : mongo_module)
    : result string :=
  match definition_text mongo_element with
  | Return data => Return (problem_text data)
  | Raise e => Raise e
  end.

(** ["player.youku.com" in data]; on a dictionary [in] asks for a key. *)
Definition mentions_youku (data : value) : bool :=
  match data with
  | Text s | Bytes s => str_in "player.youku.com" s
  | Dict _ => false
  end.

Definition thumbnail_from_video_module (video_module : mongo_module)
    : result string :=
  let data := definition_data video_module in
  if mentions_youku data then
    Return "https://lh6.ggpht.com/8_h5j6hiFXdSl5atSJDf8bJBy85b3IlzNWeRzOqRurfNVI_oiEG-dB3C0vHRclOG8A=w170"
  else
    match uuid_from_video_module video_module with
    | Raise e => Raise e
    | Return None => Return "http://img.youtube.com/vi/Tt9g2se1LcM/4.jpg"
    | Return (Some uuid) =>
        Return ("http://img.youtube.com/vi/" +:+ uuid +:+ "/0.jpg")
    end.

Definition thumbnail_from_html (html : string) : string :=
  "<svg xmlns='http://www.w3.org/2000/svg' width=200 height=200>" +:+
  "<foreignObject width='100%' height='100%'>" +:+ html +:+
  "</foreignObject></svg>".

Definition course_name_from_mongo_module (mongo_module : mongo_module)
    : result string :=
  match find_course (course (_id mongo_module)) with
  | Some name => Return name
  | None => Raise TypeError
  end.

Definition get_searchable_text (mongo_module : mongo_module)
    (type_ : string) : result text_value :=
  if String.eqb (lower type_) "pdf" then
    match pdf_searchable_text mongo_module with
    | Return s => Return (Str s)
    | Raise e => Raise e
    end
  else if String.eqb (lower type_) "problem" then
    match searchable_text_from_problem_data mongo_module with
    | Return s => Return (Str s)
    | Raise e => Raise e
    end
  else if String.eqb (lower type_) "transcript" then
    find_transcript_for_video_module mongo_module
  else Raise UnboundLocalError.

Definition get_thumbnail (mongo_module : mongo_module) (type_ : string)
    : result string :=
  if String.eqb (lower type_) "pdf" then pdf_thumbnail mongo_module
  else if String.eqb (lower type_) "problem" then
    match definition_text mongo_module with
    | Return data => Return (thumbnail_from_html data)
    | Raise e => Raise e
    end
  else if String.eqb (lower type_) "transcript" then
    thumbnail_from_video_module mongo_module
  else Raise UnboundLocalError.

(** The offering name, through [MONGO_COURSE_CACHE]: the course is
    looked up when the cache has no entry for it, or an empty one. *)
Definition cached_offering (mongo_module : mongo_module) : M string :=
  fun w =>
    let course := course (_id mongo_module) in
    match MONGO_COURSE_CACHE w !! course with
    | Some offering =>
        if negb (String.eqb offering "") then (Return offering, w)
        else
          match course_name_from_mongo_module mongo_module with
          | Return name =>
              (Return name,
               {| MONGO_COURSE_CACHE := <[course := name]> (MONGO_COURSE_CACHE w);
                  wire := wire w |})
          | Raise e => (Raise e, w)
          end
    | None =>
        match course_name_from_mongo_module mongo_module with
        | Return name =>
            (Return name,
             {| MONGO_COURSE_CACHE := <[course := name]> (MONGO_COURSE_CACHE w);
                wire := wire w |})
        | Raise e => (Raise e, w)
        end
    end.

Definition basic_dict (mongo_module : mongo_module) (type_ : string)
    : M document :=
  let id_ := json_dumps_id (_id mongo_module) in
  let org := org (_id mongo_module) in
  let course := course (_id mongo_module) in
  do offering <- cached_offering mongo_module;
  let course_id := join "/" [org; course; offering] in
  let hash_ := sha1_hexdigest id_ in
  let display_name :=
    match metadata mongo_module with
    | Some (Some display_name) => display_name
    | _ => ""
    end +:+ " (" +:+ course +:+ ")" in
  do searchable_text <- lift (get_searchable_text mongo_module type_);
  do thumbnail <- lift (get_thumbnail mongo_module type_);
  let type_hash := sha1_hexdigest course_id in
  ret {| id := id_; hash := hash_; display_name := display_name;
         course_id := course_id; searchable_text := searchable_text;
         thumbnail := thumbnail; type_hash := type_hash |}.

(** [filter(None, data.values()) == data.values()] *)
Definition complete (data : document) : bool :=
  bool_decide (List.filter truthy (values data) = values data).

(** The last two lines of the loop body: the document is sent when
    it is complete, and [.content] is read off what [index_data]
    returns; on [None] that raises [AttributeError]. *)
Definition submit (index : string) (data : document) : M unit :=
  if complete data then
    do response <- index_data index data (type_hash data) (hash data);
    match response with
    | Some r => ret tt
    | None => raise AttributeError
    end
  else ret tt.

(** The body of the loop of [index_course] for one [item]; the final
    [ret tt] of the dispatch is the [continue]. *)
Definition index_item (item : mongo_module) : M unit :=
  let category := strip (lower (category (_id item))) in
  if String.eqb category "video" then
    do data <- basic_dict item "transcript";
    submit "transcript-index" data
  else if String.eqb category "problem" then
    do data <- basic_dict item "problem";
    submit "problem-index" data
  else ret tt.

(** [for _ in range(cursor.count()): item = cursor.next(); ...] *)
Fixpoint index_items (items : list mongo_module) : M unit :=
  match items with
  | [] => ret tt
  | item :: rest => do _ <- index_item item; index_items rest
  end.

Definition index_course (course : string) : M unit :=
  index_items (find_modules_for_course course).

End Services.

End EsRequests.

(** * Notions used to state the properties *)

Module Notions.

Import Py Models.

(** [a] occurs in [b] as a contiguous piece. *)
Definition substring (a b : string) : Prop :=
  exists before after, b = before +:+ a +:+ after.

Fixpoint no_space (s : string) : bool :=
  match s with
  | EmptyString => true
  | String c s' => (negb (is_space c) && no_space s')%bool
  end.

(** A word: not empty, no blank in it. *)
Definition is_word (s : string) : Prop := s <> "" /\ no_space s = true.

(** A sentence mentions the query when it holds one of the query's
    words, letter case aside. *)
Definition mentions (query sentence : string) : Prop :=
  exists term, In term (split query)
               /\ substring (lower term) (lower sentence).

(** The highlighter renders the words of the response one by one. *)
Definition render (query word : string) : string :=
  (if highlighted query word then wrap "b" "highlight" word else word)
  +:+ " ".

Definition concat_strings (l : list string) : string :=
  foldr String.append "" l.

(** The text compared by a filter, in the words of the claim: lowered,
    then rid of punctuation. *)
Definition normalise (s : string) : string :=
  filter_chars (fun c => negb (is_punctuation c)) (lower s).

(** The response after the first [n] of [sentences] were added in
    full. *)
Definition grown (sentences : list string) (response : string) (n : nat)
    : string :=
  fold_left (fun r s => r +:+ " " +:+ s) (take n sentences) response.

(** The shape of an accumulation: [k] sentences go in whole, each
    while the count of words stays under [soft_max]; the next one, if
    there is one, does not fit, and the words [slice_to word_margin] of
    it end the result. *)
Definition accumulated (soft_max word_margin : Z) (sentences : list string)
    (response result : string) (k : nat) : Prop :=
  (forall i s, (i < k)%nat -> sentences !! i = Some s ->
               fits soft_max (grown sentences response i) s = true)
  /\ match sentences !! k with
     | None => result = grown sentences response k
     | Some s =>
         fits soft_max (grown sentences response k) s = false
         /\ result = grown sentences response k +:+ " "
                     +:+ join " " (slice_to word_margin (split s))
     end.

(** [c] occurs in [s]. *)
Fixpoint occurs (c : ascii) (s : string) : bool :=
  match s with
  | EmptyString => false
  | String x s' => (Ascii.eqb x c || occurs c s')%bool
  end.

End Notions.

Module IndexerNotions.

Import Py EsRequests.

(** Every one of the first [n] tries of the call [c], made after the
    calls in [log], raises a [RequestException]. *)
Definition all_attempts_fail `{!Services}
    (log : list call) (c : call) (n : nat) : Prop :=
  forall i, (i < n)%nat ->
            request (log ++ replicate i c) c = Throws RequestException.

(** The call by which [index_data] posts [data] to [index]. *)
Definition post_call `{!Services} (index : string) (data : document)
    : call :=
  {| c_method := "post";
     c_url := join "/" [es_url; index; type_hash data; hash data];
     c_kwargs := {| kw_attempts := None; kw_data := Some (json_dumps data) |} |}.

(** The dispatch of [index_course] on the category of an item: the
    type handed to [basic_dict] and the index written to. *)
Definition dispatch (item : mongo_module) : option (string * string) :=
  let category := strip (lower (category (_id item))) in
  if String.eqb category "video" then Some ("transcript", "transcript-index")
  else if String.eqb category "problem" then Some ("problem", "problem-index")
  else None.

(** Some field of the document is the empty string. *)
Definition has_empty_field (data : document) : Prop :=
  In (Str "") (values data).

(** No field of the document is empty. *)
Definition all_fields_non_empty (data : document) : Prop :=
  Forall (fun v => v <> Str "" /\ v <> StrList []) (values data).

(** A video module whose [data] is the text [s]. *)
Definition video_module_of (s : string) : mongo_module :=
  {| _id := {| tag := "i4x"; org := "MITx"; course := "6.002x";
               category := "video"; name := "lecture" |};
     definition := Some (Some (Text s));
     metadata := None |}.

(** A problem module whose [data] is the text [s]. *)
Definition problem_module_of (name s : string) : mongo_module :=
  {| _id := {| tag := "i4x"; org := "MITx"; course := "6.002x";
               category := "problem"; name := name |};
     definition := Some (Some (Text s));
     metadata := Some (Some name) |}.

(** A course of two problems, on an engine that cannot be reached
    ([answers = false]: every call raises a [RequestException]) or one
    that answers every call. *)
Definition two_problems (answers : bool) : Services :=
  {| request := fun _ _ =>
       if answers then Responds {| content := "{}" |}
       else Throws RequestException;
     es_url := "http://localhost:9200";
     json_dumps := fun data => id data;
     json_dumps_id := fun l => name l;
     sha1_hexdigest := fun s => "sha1-" +:+ s;
     find_modules_for_course := fun _ =>
       [problem_module_of "p1" "<p>What is 2+2?</p>";
        problem_module_of "p2" "<p>What is 3+3?</p>"];
     find_course := fun _ => Some "2012_Fall";
     find_chunk := fun _ => None;
     re_compiles := fun _ => true;
     json_loads_text := fun _ => Raise ValueError;
     pdf_searchable_text := fun _ => Return "";
     pdf_thumbnail := fun _ => Return "" |}.

Definition empty_world : world :=
  {| MONGO_COURSE_CACHE := ∅; wire := [] |}.

(** A course of two problems on an engine that answers every call: the
    paragraphs of the first are blank, the second is a question. *)
Definition blank_then_sound : Services :=
  {| request := fun _ _ => Responds {| content := "{}" |};
     es_url := "http://localhost:9200";
     json_dumps := fun data => id data;
     json_dumps_id := fun l => name l;
     sha1_hexdigest := fun s => "sha1-" +:+ s;
     find_modules_for_course := fun _ =>
       [problem_module_of "p0" "<p>  </p><p> </p>";
        problem_module_of "p1" "<p>What is 2+2?</p>"];
     find_course := fun _ => Some "2012_Fall";
     find_chunk := fun _ => None;
     re_compiles := fun _ => true;
     json_loads_text := fun _ => Raise ValueError;
     pdf_searchable_text := fun _ => Return "";
     pdf_thumbnail := fun _ => Return "" |}.


End IndexerNotions.

(** * The rest of the two modules *)

(** ** [search/models.py]: counters, the filter union, construction *)

Module ModelsRest.

Import Py Models.

(** [Counter(master_list)]: how many times each item occurs. *)
Definition Counter (master_list : list string) : gmap string nat :=
  fold_left (fun counter item => <[item := S (default 0%nat (counter !! item))]> counter)
            master_list ∅.

(** [SearchResults.get_counter(field)].  [entry.data[field]] raises
    [KeyError] on an entry without the field: that is the [None]. *)
Definition get_counter (self : SearchResults) (field : string)
    : option (gmap string nat) :=
  master_list ← mapM (fun entry => lower <$> data entry !! field) (entries self);
  Some (Counter master_list).

(** [list(full_results)] in [filter_and_sort]: the entries whose
    positions are in the union, in the order the set gives them. *)
Definition filtered_entries (self : SearchResults) : list SearchResult :=
  omap (fun i => entries self !! i) (elements (full_results self)).

(** [SearchResults.filter_and_sort] and [sort_results].
    [search.sorting.sort] is not among the sources: [sorting_sort]
    stands for it. *)
Definition filter_and_sort
    (sorting_sort : list SearchResult -> option string -> list SearchResult)
    (self : SearchResults) : SearchResults :=
  {| entries := sorting_sort (filtered_entries self) (sort self);
     sort := sort self;
     query := query self;
     filters := filters self |}.

(** The thumbnail of [SearchResult.__init__]: kept when it is an
    [http://] address, taken for base64 image data otherwise. *)
Definition result_thumbnail (thumbnail : string) : string :=
  if starts_with "http://" thumbnail then thumbnail
  else "data:image/jpg;base64," +:+ thumbnail.

(** [SearchResult.__init__(entry, score, query)].  [jump_to_url] stands
    for [_return_jump_to_url], which goes through [json] and
    [xmodule]'s [Location]; [None] is an exception, raised by it or by
    the lookup of a key that [entry] lacks. *)
Definition SearchResult_init (tokenize : string -> list string)
    (jump_to_url : gmap string string -> option string)
    (entry : gmap string string) (query : string) : option SearchResult :=
  url ← jump_to_url entry;
  thumbnail ← entry !! "thumbnail";
  searchable_text ← entry !! "searchable_text";
  Some {| data := entry;
          url := url;
          thumbnail := result_thumbnail thumbnail;
          snippets := _snippet_generator_default tokenize searchable_text query |}.

End ModelsRest.

(** ** [search/es_requests.py]: the pdf text and the bulk format *)

Module EsRequestsRest.

Import Py EsRequests.

(** [only_ascii = lambda s: "".join(c for c in s if ord(c) < 128)] *)
Definition only_ascii (s : string) : string :=
  filter_chars (fun c => Nat.ltb (code c) 128) s.

(** [s.replace("\n", " ")] *)
Fixpoint newlines_to_spaces (s : string) : string :=
  match s with
  | EmptyString => EmptyString
  | String c s' =>
      String (if Ascii.eqb c Re.newline then " "%char else c)
             (newlines_to_spaces s')
  end.

(** [MongoIndexer.pdf_to_text].  [process_pdf] stands for pdfminer on
    [mongo_element["data"]]: the text it writes, or [None] for a
    [PDFSyntaxError]. *)
Definition pdf_to_text (process_pdf : string -> option string)
    (data : string) : string :=
  match process_pdf data with
  | None => ""
  | Some text => newlines_to_spaces (only_ascii text)
  end.

(** [MongoIndexer.bulk_index_item(index, data)].  [json_dumps_action]
    stands for [json.dumps] on the action
    [{"index": {"_index": ..., "_type": ..., "_id": ...}}]. *)
Definition bulk_index_item `{!Services}
    (json_dumps_action : string -> string -> string -> string)
    (index : string) (data : document) : string :=
  let return_string := "" in
  let return_string :=
    return_string +:+ json_dumps_action index (type_hash data) (hash data) in
  let return_string := return_string +:+ String Re.newline "" in
  let return_string := return_string +:+ json_dumps data in
  let return_string := return_string +:+ String Re.newline "" in
  return_string.

End EsRequestsRest.

(** ** Notions for the properties of the rest *)

Module RestNotions.

Import Py Models EsRequests.

(** How many items of [l] are [k]. *)
Definition occurrences (k : string) (l : list string) : nat :=
  length (List.filter (String.eqb k) l).

(** The number of words of a text. *)
Definition words (s : string) : Z := llen (split s).

(** Services whose [json.dumps] and [sha1] never give the empty string,
    as the real ones do not. *)
Definition digests_non_empty `{!Services} : Prop :=
  (forall l, json_dumps_id l <> "") /\ (forall s, sha1_hexdigest s <> "").

(** Every try of every call is answered. *)
Definition always_answers `{!Services} : Prop :=
  forall log c, exists r, request log c = Responds r.

(** Every character of [s] satisfies [p]. *)
Fixpoint all_chars (p : ascii -> bool) (s : string) : bool :=
  match s with
  | EmptyString => true
  | String c s' => (p c && all_chars p s')%bool
  end.

(** [sub] is what is left of [s] when some of its characters are
    deleted. *)
Inductive subsequence : string -> string -> Prop :=
| subsequence_nil : subsequence "" ""
| subsequence_keep c sub s :
    subsequence sub s -> subsequence (String c sub) (String c s)
| subsequence_drop c sub s :
    subsequence sub s -> subsequence sub (String c s).

End RestNotions.

(** * Properties *)

(** ** Text primitives *)

Module PyFacts.

Import Py Notions.

Lemma append_cons (c : ascii) (a b : string) :
  String c a +:+ b = String c (a +:+ b).
Proof. reflexivity. Qed.

Lemma append_empty_l (s : string) : "" +:+ s = s.
Proof. reflexivity. Qed.

Lemma append_empty_r (s : string) : s +:+ "" = s.
Proof.
  induction s as [|c s IH]; [reflexivity | now rewrite append_cons, IH].
Qed.

Lemma append_assoc (a b c : string) : (a +:+ b) +:+ c = a +:+ (b +:+ c).
Proof.
  induction a as [|x a IH]; [reflexivity | now rewrite !append_cons, IH].
Qed.

Lemma length_append (a b : string) :
  String.length (a +:+ b) = (String.length a + String.length b)%nat.
Proof.
  induction a as [|x a IH]; [reflexivity | rewrite append_cons; simpl; now rewrite IH].
Qed.

Lemma starts_with_spec (p a : string) :
  starts_with p a = true <-> exists rest, a = p +:+ rest.
Proof.
  revert a; induction p as [|x p IH]; intros a; simpl.
  - split; [intros _; now exists a | reflexivity].
  - destruct a as [|y a].
    + split; [discriminate | intros [rest H]; discriminate].
    + rewrite andb_true_iff, Ascii.eqb_eq, IH. split.
      * intros [-> [rest ->]]. now exists rest.
      * intros [rest H]. rewrite append_cons in H. injection H as -> ->.
        split; [reflexivity | now exists rest].
Qed.

Lemma str_in_spec (a b : string) : str_in a b = true <-> substring a b.
Proof.
  unfold substring. induction b as [|y b IH].
  - simpl. rewrite orb_false_r, starts_with_spec. split.
    + intros [rest H]. now exists "", rest.
    + intros [before [after H]]. destruct before; [now exists after | discriminate].
  - cbn [str_in]. rewrite orb_true_iff, starts_with_spec, IH. split.
    + intros [[rest H] | [before [after H]]].
      * now exists "", rest.
      * exists (String y before), after. now rewrite append_cons, H.
    + intros [before [after H]]. destruct before as [|x before].
      * left. now exists after.
      * right. rewrite append_cons in H. injection H as _ H.
        now exists before, after.
Qed.

Lemma str_in_empty (b : string) : str_in "" b = true.
Proof. destruct b; reflexivity. Qed.

(** Lowering and removing punctuation do not get in each other's way. *)
Lemma lower_char_punctuation (c : ascii) :
  is_punctuation (lower_char c) = is_punctuation c.
Proof.
  destruct c as [[] [] [] [] [] [] [] []]; reflexivity.
Qed.

Lemma lower_filter_punctuation (s : string) :
  lower (filter_chars (fun c => negb (is_punctuation c)) s)
  = filter_chars (fun c => negb (is_punctuation c)) (lower s).
Proof.
  induction s as [|c s IH]; simpl; [reflexivity|].
  rewrite lower_char_punctuation.
  destruct (is_punctuation c); simpl; now rewrite IH.
Qed.

(** *** [split] *)

Lemma no_space_append (a b : string) :
  no_space (a +:+ b) = (no_space a && no_space b)%bool.
Proof.
  induction a as [|x a IH]; [reflexivity|].
  rewrite append_cons. simpl. now rewrite IH, andb_assoc.
Qed.

Lemma append_char_not_empty (s : string) (c : ascii) :
  s +:+ String c "" <> "".
Proof. destruct s; discriminate. Qed.

Lemma split_from_words (s cur : string) :
  no_space cur = true -> Forall is_word (split_from cur s).
Proof.
  revert cur; induction s as [|c s IH]; intros cur Hcur; simpl.
  - destruct cur; [constructor|].
    constructor; [split; [discriminate | assumption] | constructor].
  - destruct (is_space c) eqn:Hc.
    + destruct cur.
      * now apply IH.
      * constructor; [split; [discriminate | assumption] | now apply IH].
    + apply IH. rewrite no_space_append, Hcur. simpl. now rewrite Hc.
Qed.

Lemma split_words (s : string) : Forall is_word (split s).
Proof. now apply split_from_words. Qed.

(** A blank ends the word being read; what follows is split afresh. *)
Lemma split_from_blank (a b cur : string) (c : ascii) :
  is_space c = true ->
  split_from cur (a +:+ String c b) = split_from cur a ++ split b.
Proof.
  intros Hc. revert cur; induction a as [|x a IH]; intros cur.
  - rewrite append_empty_l. simpl. rewrite Hc. destruct cur; reflexivity.
  - rewrite append_cons. simpl. destruct (is_space x).
    + destruct cur; rewrite IH; reflexivity.
    + apply IH.
Qed.

Lemma split_blank (a b : string) (c : ascii) :
  is_space c = true -> split (a +:+ String c b) = split a ++ split b.
Proof. apply split_from_blank. Qed.

Lemma split_from_no_space (s cur : string) :
  no_space s = true -> cur +:+ s <> "" -> split_from cur s = [cur +:+ s].
Proof.
  revert cur; induction s as [|c s IH]; intros cur Hs Hne; simpl.
  - rewrite append_empty_r in *. destruct cur; [contradiction | reflexivity].
  - simpl in Hs. apply andb_true_iff in Hs as [Hc Hs].
    apply negb_true_iff in Hc. rewrite Hc.
    rewrite IH; [| assumption |].
    + now rewrite append_assoc.
    + rewrite append_assoc. exact Hne.
Qed.

Lemma split_word (w : string) : is_word w -> split w = [w].
Proof. intros [Hne Hw]. now apply (split_from_no_space w ""). Qed.

(** Joining words with single spaces and splitting again gives the
    words back. *)
Lemma split_join (ws : list string) :
  Forall is_word ws -> split (join " " ws) = ws.
Proof.
  induction 1 as [|w ws Hw Hws IH]; [reflexivity|].
  destruct ws as [|w' ws].
  - now apply split_word.
  - change (join " " (w :: w' :: ws)) with (w +:+ String " " (join " " (w' :: ws))).
    rewrite split_blank by reflexivity.
    now rewrite IH, split_word.
Qed.

Lemma slice_to_prefix {A} (n : Z) (l : list A) :
  exists rest, l = slice_to n l ++ rest.
Proof.
  unfold slice_to. destruct (n <? 0); eexists; symmetry; apply take_drop.
Qed.

Lemma slice_to_nonneg {A} (n : Z) (l : list A) :
  0 <= n -> slice_to n l = take (Z.to_nat n) l.
Proof.
  intros Hn. unfold slice_to.
  destruct (Z.ltb_spec n 0); [lia | reflexivity].
Qed.

Lemma slice_to_words (n : Z) (ws : list string) :
  Forall is_word ws -> Forall is_word (slice_to n ws).
Proof.
  intros H. unfold slice_to. destruct (n <? 0); now apply Forall_take.
Qed.

End PyFacts.

(** ** The result models *)

Module ModelsFacts.

Import Py Notions PyFacts.
Import Models.

(** *** The fuzzy matcher *)

Lemma near_size_spec (w0 w1 : string) :
  near_size w0 w1 = true <->
  6 * (Z.abs (len w0 - len w1) + 1) <= len w0 + len w1.
Proof.
  unfold near_size. rewrite Z.ltb_lt.
  pose proof (Z.div_mod (len w0 + len w1) 6 ltac:(lia)) as Hdm.
  pose proof (Z.mod_pos_bound (len w0 + len w1) 6 ltac:(lia)) as Hb.
  lia.
Qed.

(** C1, as the claim states it, fails: ["history"] is no piece of
    ["histories"], nor the other way round, so the term does not match
    the word. *)
Lemma histories_does_not_match_history :
  ~ (_match ("histories", "history") = true
     /\ _match ("histories", "hidden") = false).
Proof. intros [H _]. vm_compute in H. discriminate. Qed.

(** C1, amended.  The matcher accepts a pair exactly when one string is
    a piece of the other and the difference of the lengths is below the
    whole quotient of their sum by six, that is when six times the
    difference plus six is at most the sum.  The term ["histories"]
    matches neither the word ["history"] nor the word ["hidden"], and
    the highlighter wraps neither. *)
Theorem match_is_containment_within_sixth :
  (forall w0 w1 : string,
      _match (w0, w1) = true <->
      (substring w0 w1 \/ substring w1 w0)
      /\ 6 * (Z.abs (len w0 - len w1) + 1) <= len w0 + len w1)
  /\ _match ("histories", "history") = false
  /\ _match ("histories", "hidden") = false
  /\ _match_highlighter "histories" "The history is hidden."
     = "The history is hidden. ".
Proof.
  split; [| repeat split; vm_compute; reflexivity].
  intros w0 w1. unfold _match, contained. simpl.
  rewrite andb_true_iff, orb_true_iff, !str_in_spec, near_size_spec.
  reflexivity.
Qed.

(** *** The snippet generator *)

Lemma query_container_spec (query sentence : string) :
  query_container query sentence = true <-> mentions query sentence.
Proof.
  unfold query_container, substrings, any, mentions.
  rewrite existsb_exists. split.
  - intros [sub [Hin Hsub]]. apply in_map_iff in Hin as [term [<- Hin]].
    exists term. split; [assumption | now apply str_in_spec].
  - intros [term [Hin Hsub]]. exists (lower term).
    split; [now apply in_map | now apply str_in_spec].
Qed.

Lemma query_container_false (query sentence : string) :
  ~ mentions query sentence -> query_container query sentence = false.
Proof.
  intros H. destruct (query_container query sentence) eqn:E; [|reflexivity].
  now apply query_container_spec in E.
Qed.

Lemma not_mentions (query sentence : string) :
  query_container query sentence = false -> ~ mentions query sentence.
Proof.
  intros E H. apply query_container_spec in H. congruence.
Qed.

Section SnippetFacts.

Variables (query : string) (soft_max word_margin : Z).

(** Once tripped, the first loop is the accumulation of the second. *)
Lemma first_loop_tripped (sentences : list string) (response : string) :
  first_loop query soft_max word_margin sentences true response
  = (true, accumulate soft_max word_margin sentences response).
Proof.
  revert response; induction sentences as [|s ss IH]; intros response.
  - reflexivity.
  - simpl. destruct (fits soft_max response s); [apply IH | reflexivity].
Qed.

Lemma first_loop_no_mention (sentences : list string) (response : string) :
  Forall (fun s => ~ mentions query s) sentences ->
  first_loop query soft_max word_margin sentences false response
  = (false, response).
Proof.
  induction 1 as [|s ss Hs Hss IH]; [reflexivity|].
  simpl. now rewrite (query_container_false _ _ Hs).
Qed.

Lemma first_loop_first_mention
    (before after : list string) (sentence response : string) :
  Forall (fun s => ~ mentions query s) before ->
  mentions query sentence ->
  first_loop query soft_max word_margin (before ++ sentence :: after)
             false response
  = (true, accumulate soft_max word_margin after (response +:+ sentence)).
Proof.
  intros Hbefore Hs. induction Hbefore as [|s ss Hn Hss IH].
  - simpl. apply query_container_spec in Hs. rewrite Hs.
    apply first_loop_tripped.
  - simpl. now rewrite (query_container_false _ _ Hn).
Qed.

(** What accumulation adds comes after the response, and starts with
    the separating space. *)
Lemma accumulate_extends (sentences : list string) (response : string) :
  exists rest,
    accumulate soft_max word_margin sentences response = response +:+ rest
    /\ (rest = "" \/ exists rest', rest = String " " rest').
Proof.
  revert response; induction sentences as [|s ss IH]; intros response.
  - exists "". split; [now rewrite append_empty_r | now left].
  - simpl. destruct (fits soft_max response s).
    + destruct (IH (response +:+ " " +:+ s)) as [rest [Heq _]].
      exists (" " +:+ s +:+ rest). split.
      * now rewrite Heq, !append_assoc.
      * right. now exists (s +:+ rest).
    + exists (margin_of word_margin s). split; [reflexivity|].
      right. now eexists.
Qed.

End SnippetFacts.

Lemma concat_strings_app (l1 l2 : list string) :
  concat_strings (l1 ++ l2) = concat_strings l1 +:+ concat_strings l2.
Proof.
  induction l1 as [|x l1 IH]; [reflexivity|].
  simpl. now rewrite IH, append_assoc.
Qed.

Lemma highlight_words_render (query : string) (words : list string)
    (bold_response : string) :
  highlight_words query "b" "highlight" words bold_response
  = bold_response +:+ concat_strings (map (render query) words).
Proof.
  revert bold_response; induction words as [|w ws IH]; intros bold_response.
  - simpl. now rewrite append_empty_r.
  - simpl. rewrite IH. unfold render.
    destruct (highlighted query w); now rewrite !append_assoc.
Qed.

Lemma match_highlighter_render (query response : string) :
  _match_highlighter query response
  = concat_strings (map (render query) (split response)).
Proof. apply highlight_words_render. Qed.

Lemma first_loop_cases (query : string) (soft_max word_margin : Z)
    (sentences : list string) (response : string) :
  (Forall (fun s => ~ mentions query s) sentences
   /\ first_loop query soft_max word_margin sentences false response
      = (false, response))
  \/ exists before s after,
      sentences = before ++ s :: after
      /\ Forall (fun s => ~ mentions query s) before
      /\ mentions query s
      /\ first_loop query soft_max word_margin sentences false response
         = (true, accumulate soft_max word_margin after (response +:+ s)).
Proof.
  induction sentences as [|s ss IH]; [left; split; [constructor | reflexivity]|].
  simpl. destruct (query_container query s) eqn:Hq.
  - right. exists [], s, ss. repeat split.
    + constructor.
    + now apply query_container_spec.
    + apply first_loop_tripped.
  - apply not_mentions in Hq.
    destruct IH as [[Hnone IH] | (before & s' & after & -> & Hb & Hs & IH)].
    + left. split; [now constructor | exact IH].
    + right. exists (s :: before), s', after.
      repeat split; try assumption. now constructor.
Qed.

Lemma split_response_rest (sentence rest : string) :
  rest = "" \/ (exists rest', rest = String " " rest') ->
  split (sentence +:+ rest) = split sentence ++ split rest.
Proof.
  intros [-> | [rest' ->]].
  - rewrite append_empty_r. change (split "") with (@nil string).
    now rewrite app_nil_r.
  - now rewrite split_blank.
Qed.

(** C4.  When a sentence mentions the query, the snippet is the first
    such sentence followed by what is accumulated after it, and with
    [bold] set it is that text word by word, the words of that sentence
    first.  When no sentence mentions the query, the snippet is
    accumulated from the first sentence of the text.  For the text of
    the example and the query ["history"] the snippet starts at
    ["History begins here."]. *)
Theorem snippet_starts_at_first_mention
    (tokenize : string -> list string) (transcript query : string)
    (soft_max word_margin : Z) :
  (forall before sentence after,
      tokenize transcript = before ++ sentence :: after ->
      Forall (fun s => ~ mentions query s) before ->
      mentions query sentence ->
      exists rest,
        _snippet_generator tokenize transcript query soft_max word_margin false
        = sentence +:+ rest
        /\ sentence +:+ rest = accumulate soft_max word_margin after sentence
        /\ _snippet_generator tokenize transcript query soft_max word_margin true
           = concat_strings (map (render query) (split sentence))
             +:+ concat_strings (map (render query) (split rest)))
  /\ (Forall (fun s => ~ mentions query s) (tokenize transcript) ->
      _snippet_generator tokenize transcript query soft_max word_margin false
      = accumulate soft_max word_margin (tokenize transcript) ""
      /\ _snippet_generator tokenize transcript query soft_max word_margin true
         = _match_highlighter query
             (accumulate soft_max word_margin (tokenize transcript) "")
      /\ forall first others,
          tokenize transcript = first :: others ->
          exists rest,
            accumulate soft_max word_margin (tokenize transcript) ""
            = " " +:+ (if fits soft_max "" first then first
                       else join " " (slice_to word_margin (split first)))
                  +:+ rest)
  /\ (Exists (mentions query) (tokenize transcript) ->
      exists before sentence after,
        tokenize transcript = before ++ sentence :: after
        /\ Forall (fun s => ~ mentions query s) before
        /\ mentions query sentence)
  /\ (tokenize transcript
      = ["Intro sentence."; "History begins here.";
         "More details follow with extra words to pad length."] ->
      _snippet_generator tokenize transcript "history" 50 25 false
      = "History begins here. More details follow with extra words to pad length."
      /\ _snippet_generator_default tokenize transcript "history"
         = "<b class=highlight>History</b> begins here. More details follow with extra words to pad length. ").
Proof.
  split; [| split; [| split]].
  - intros before sentence after Htok Hbefore Hs.
    unfold _snippet_generator. rewrite Htok.
    rewrite (first_loop_first_mention _ _ _ _ _ _ _ Hbefore Hs).
    rewrite append_empty_l.
    destruct (accumulate_extends soft_max word_margin after sentence)
      as [rest [Heq Hrest]].
    exists rest. rewrite Heq. repeat split.
    rewrite match_highlighter_render, (split_response_rest _ _ Hrest).
    now rewrite map_app, concat_strings_app.
  - intros Hnone. unfold _snippet_generator.
    rewrite (first_loop_no_mention _ _ _ _ _ Hnone).
    repeat split.
    intros first others Htok. rewrite Htok. simpl.
    destruct (fits soft_max "" first).
    + destruct (accumulate_extends soft_max word_margin others
                  ("" +:+ " " +:+ first)) as [rest [Heq _]].
      exists rest. now rewrite Heq.
    + exists "". now rewrite append_empty_r.
  - intros Hsome.
    destruct (first_loop_cases query soft_max word_margin
                (tokenize transcript) "")
      as [[Hnone _] | (before & s & after & Htok & Hb & Hs & _)].
    + apply Exists_exists in Hsome as [s [Hin Hs]].
      rewrite Forall_forall in Hnone. now apply Hnone in Hin.
    + now exists before, s, after.
  - intros Htok. unfold _snippet_generator_default, _snippet_generator.
    rewrite Htok. split; vm_compute; reflexivity.
Qed.

(** The example of C4, run on a tokenizer that cuts the example's text
    into its three sentences: the query ["history"] starts the snippet
    at the second sentence, a query that no sentence mentions starts it
    at the first. *)
Lemma snippet_starts_at_first_mention_witness :
  let tokenize := fun _ : string =>
    ["Intro sentence."; "History begins here.";
     "More details follow with extra words to pad length."] in
  let text :=
    "Intro sentence. History begins here. More details follow with extra words to pad length." in
  (exists rest,
      _snippet_generator tokenize text "history" 50 25 false
      = "History begins here." +:+ rest
      /\ "History begins here." +:+ rest
         = accumulate 50 25
             ["More details follow with extra words to pad length."]
             "History begins here."
      /\ _snippet_generator tokenize text "history" 50 25 true
         = concat_strings (map (render "history") (split "History begins here."))
           +:+ concat_strings (map (render "history") (split rest)))
  /\ _snippet_generator tokenize text "zebra" 50 25 false
     = accumulate 50 25 (tokenize text) ""
  /\ _snippet_generator_default tokenize text "history"
     = "<b class=highlight>History</b> begins here. More details follow with extra words to pad length. ".
Proof.
  intros tokenize text.
  split; [| split].
  - apply (proj1 (snippet_starts_at_first_mention tokenize text "history" 50 25)
             ["Intro sentence."] "History begins here."
             ["More details follow with extra words to pad length."]).
    + reflexivity.
    + constructor; [| constructor]. apply not_mentions. reflexivity.
    + apply query_container_spec. reflexivity.
  - apply (proj1 (proj2 (snippet_starts_at_first_mention tokenize text "zebra" 50 25))).
    repeat constructor; apply not_mentions; reflexivity.
  - apply (proj2 (proj2 (proj2
             (snippet_starts_at_first_mention tokenize text "history" 50 25)))).
    reflexivity.
Defined.

(** *** Truncation *)

Lemma accumulate_shape (soft_max word_margin : Z) (sentences : list string)
    (response : string) :
  exists k,
    accumulated soft_max word_margin sentences response
      (accumulate soft_max word_margin sentences response) k.
Proof.
  revert response; induction sentences as [|s ss IH]; intros response.
  - exists 0%nat. split; [intros i s Hi; lia | reflexivity].
  - simpl. destruct (fits soft_max response s) eqn:Hfit.
    + destruct (IH (response +:+ " " +:+ s)) as [k [Hfull Hlast]].
      exists (S k). split.
      * intros [|i] s' Hi Hs'.
        -- injection Hs' as <-. exact Hfit.
        -- apply (Hfull i s'); [lia | exact Hs'].
      * exact Hlast.
    + exists 0%nat. split; [intros i s' Hi; lia|].
      simpl. split; [exact Hfit | reflexivity].
Qed.

Lemma slice_to_whole {A} (n : Z) (l : list A) :
  slice_to n l = l <-> llen l <= n \/ l = [].
Proof.
  unfold slice_to, llen. split.
  - intros H. apply (f_equal length) in H.
    destruct l as [|x l]; [now right | left].
    destruct (Z.ltb_spec n 0); rewrite length_take in H; simpl length in *; lia.
  - intros [H | ->]; [| now destruct (n <? 0); rewrite take_nil].
    destruct (Z.ltb_spec n 0).
    + destruct l; [now rewrite take_nil | simpl length in H; lia].
    + apply take_ge. lia.
Qed.

(** C5, as the claim states it, fails: an overflow sentence of no more
    than [word_margin] words goes into the snippet whole.  Here the
    first sentence has 45 words and the second 5. *)
Lemma overflow_sentence_kept_whole :
  ~ (forall (tokenize : string -> list string)
            (transcript query start overflow : string),
        tokenize transcript = [start; overflow] ->
        query_container query start = true ->
        fits 50 start overflow = false ->
        _snippet_generator tokenize transcript query 50 25 false
        <> start +:+ " " +:+ overflow).
Proof.
  intros H.
  apply (H (fun _ =>
              ["The history of the early republic is a long story of wars and treaties and of the many small towns along the river that grew rich on trade in grain and timber and wool before the great flood came and washed the old bridges away.";
               "The towns were rebuilt later."])
           "The history of the early republic is a long story of wars and treaties and of the many small towns along the river that grew rich on trade in grain and timber and wool before the great flood came and washed the old bridges away. The towns were rebuilt later."
           "history" _ _ eq_refl); reflexivity.
Qed.

(** C5, amended.  After its starting point the snippet takes whole
    sentences while the count of words stays under [soft_max]; of the
    first sentence that does not fit it takes the words
    [sentence.split()[:word_margin]], joined by single spaces, and
    stops.  Those words are the first [word_margin] words of the
    sentence when [word_margin] is not negative, and they are all the
    words of the sentence exactly when it has no more than
    [word_margin] words (or none at all). *)
Theorem snippet_accumulates_then_takes_margin
    (tokenize : string -> list string) (transcript query : string)
    (soft_max word_margin : Z) :
  exists (start : string) (before following : list string) (k : nat),
    tokenize transcript = before ++ following
    /\ ((start = "" /\ before = []
         /\ Forall (fun s => ~ mentions query s) following)
        \/ exists earlier,
            before = earlier ++ [start]
            /\ Forall (fun s => ~ mentions query s) earlier
            /\ mentions query start)
    /\ accumulated soft_max word_margin following start
         (_snippet_generator tokenize transcript query soft_max word_margin
                             false) k
    /\ forall overflow, following !! k = Some overflow ->
         let words := slice_to word_margin (split overflow) in
         split (join " " words) = words
         /\ (exists dropped, split overflow = words ++ dropped)
         /\ (word_margin < 0
             \/ words = take (Z.to_nat word_margin) (split overflow))
         /\ (words = split overflow <->
             llen (split overflow) <= word_margin \/ split overflow = []).
Proof.
  assert (Hwords : forall overflow,
    let words := slice_to word_margin (split overflow) in
    split (join " " words) = words
    /\ (exists dropped, split overflow = words ++ dropped)
    /\ (word_margin < 0
        \/ words = take (Z.to_nat word_margin) (split overflow))
    /\ (words = split overflow <->
        llen (split overflow) <= word_margin \/ split overflow = [])).
  { intros overflow words. subst words. repeat split.
    - apply split_join, slice_to_words, split_words.
    - apply slice_to_prefix.
    - destruct (Z.ltb_spec word_margin 0); [now left | right].
      now apply slice_to_nonneg.
    - apply slice_to_whole.
    - apply slice_to_whole. }
  unfold _snippet_generator.
  destruct (first_loop_cases query soft_max word_margin (tokenize transcript) "")
    as [[Hnone E] | (before & s & after & Htok & Hb & Hs & E)]; rewrite E.
  - destruct (accumulate_shape soft_max word_margin (tokenize transcript) "")
      as [k Hk].
    exists "", [], (tokenize transcript), k.
    split; [reflexivity|]. split; [now left|].
    split; [exact Hk | intros; apply Hwords].
  - destruct (accumulate_shape soft_max word_margin after ("" +:+ s))
      as [k Hk].
    exists s, (before ++ [s]), after, k.
    split; [now rewrite <- app_assoc|].
    split; [right; now exists before|].
    split; [exact Hk | intros; apply Hwords].
Qed.

(** *** Filters *)

Lemma strip_punc_normalise (s : string) : strip_punc s = normalise s.
Proof. apply lower_filter_punctuation. Qed.

Lemma elem_of_filter (self : SearchResults) (field : string)
    (value : option string) (i : nat) :
  i ∈ Models.filter self field value <->
  exists entry, entries self !! i = Some entry
                /\ to_filter (default "" value) entry field = true.
Proof.
  unfold Models.filter.
  rewrite elem_of_list_to_set, list_elem_of_omap. split.
  - intros [[j entry] [Hin Hf]].
    apply elem_of_lookup_imap in Hin as [j' [entry' [Heq Hl]]].
    injection Heq as -> ->.
    destruct value; simpl in *;
      destruct (to_filter _ entry' field) eqn:E; try discriminate;
      injection Hf as <-; now exists entry'.
  - intros [entry [Hl Hf]]. exists (i, entry). split.
    + apply elem_of_lookup_imap. now exists i, entry.
    + destruct value; simpl in *; now rewrite Hf.
Qed.


(** C10.  With the value [None] or [""] the filter returns every entry,
    those without the field included: the empty string is a piece of
    every string.  So it is not empty unless there are no entries, and
    the default filters [{"": ""}] let every entry through. *)
Theorem filter_empty_value_matches_all
    (self : SearchResults) (field : string) :
  Models.filter self field None = set_seq 0 (length (entries self))
  /\ Models.filter self field (Some "") = set_seq 0 (length (entries self))
  /\ (forall i, i ∈ Models.filter self field None <->
                is_Some (entries self !! i))
  /\ (entries self <> [] -> Models.filter self field None <> ∅)
  /\ (filters self = {[ "" := Some "" ]} ->
      full_results self = set_seq 0 (length (entries self))).
Proof.
  assert (Hall : forall (fld : string) (value : option string) (i : nat),
             value = None \/ value = Some "" ->
             i ∈ Models.filter self fld value <-> is_Some (entries self !! i)).
  { intros fld value i Hv. rewrite elem_of_filter.
    assert (default "" value = "") as -> by (destruct Hv as [-> | ->]; reflexivity).
    split.
    - intros [entry [Hl _]]. now exists entry.
    - intros [entry Hl]. exists entry. split; [assumption|].
      unfold to_filter. apply str_in_empty. }
  assert (Hseq : forall (fld : string) (value : option string),
             value = None \/ value = Some "" ->
             Models.filter self fld value = set_seq 0 (length (entries self))).
  { intros fld value Hv. apply set_eq. intros i.
    rewrite (Hall _ _ _ Hv), elem_of_set_seq, lookup_lt_is_Some. lia. }
  repeat split.
  - apply Hseq. now left.
  - apply Hseq. now right.
  - apply Hall. now left.
  - apply Hall. now left.
  - intros Hne Hempty. destruct (entries self) as [|e es] eqn:E; [contradiction|].
    assert (H0 : 0%nat ∈ Models.filter self field None).
    { apply Hall; [now left|]. now exists e. }
    rewrite Hempty in H0. now apply not_elem_of_empty in H0.
  - intros Hf. unfold full_results. rewrite Hf, map_to_list_singleton.
    simpl. rewrite (left_id_L ∅ (∪)). apply Hseq. now right.
Qed.

End ModelsFacts.

(** ** The indexer *)

Module EsRequestsFacts.

Import Py Notions PyFacts.
Import EsRequests IndexerNotions.

(** *** The request wrapper *)

Section Requests.

Context {services : Services}.

(** One turn of the loop. *)
Lemma attempt_loop_step (n : nat) (c : call) (w : world) :
  attempt_loop (S n) c None w
  = match request (wire w) c with
    | Responds r => (Return (Some r), sent c w)
    | Throws e =>
        if decide (e = RequestException)
        then attempt_loop n c None (sent c w)
        else (Raise e, sent c w)
    end.
Proof. simpl. destruct (request (wire w) c) as [r | []]; reflexivity. Qed.

(** The first try did not raise a [RequestException], so not all tries
    fail. *)
Ltac first_try_refutes Hall :=
  specialize (Hall 0%nat ltac:(lia)); simpl in Hall;
  rewrite app_nil_r in Hall; congruence.

Lemma attempt_loop_spec (n : nat) (c : call) (w : world) :
  exists made,
    (made <= n)%nat
    /\ wire (attempt_loop n c None w).2 = wire w ++ replicate made c
    /\ (attempt_loop n c None w).1 <> Raise RequestException
    /\ (n <> 0%nat -> (1 <= made)%nat)
    /\ ((attempt_loop n c None w).1 = Return None <->
        all_attempts_fail (wire w) c n)
    /\ ((attempt_loop n c None w).1 = Return None -> made = n).
Proof.
  revert w; induction n as [|n IH]; intros w.
  - exists 0%nat. simpl. rewrite app_nil_r. repeat split; try done.
    intros i Hi. lia.
  - rewrite attempt_loop_step.
    destruct (request (wire w) c) as [r | e] eqn:Hreq;
      [| destruct (decide (e = RequestException)) as [-> | He]].
    + exists 1%nat. simpl. repeat split; try done; try lia.
      intros Hall. first_try_refutes Hall.
    + destruct (IH (sent c w)) as [made (Hle & Hw & Hne & _ & Hiff & Hn)].
      exists (S made). simpl in Hw. repeat split.
      * lia.
      * rewrite Hw, <- app_assoc. reflexivity.
      * exact Hne.
      * intros. lia.
      * intros Hr. apply Hiff in Hr. intros [|i] Hi.
        -- simpl. now rewrite app_nil_r.
        -- specialize (Hr i ltac:(lia)). simpl in Hr.
           rewrite <- app_assoc in Hr. exact Hr.
      * intros Hall. apply Hiff. intros i Hi.
        specialize (Hall (S i) ltac:(lia)). simpl.
        rewrite <- app_assoc. exact Hall.
      * intros Hr. f_equal. now apply Hn.
    + exists 1%nat. simpl. repeat split; try done; try lia.
      * congruence.
      * intros Hall. first_try_refutes Hall.
Qed.

(** A try that answers after failed ones gives the answer. *)
Lemma attempt_loop_retry (n i : nat) (c : call) (w : world) (r : Response) :
  (i < n)%nat ->
  all_attempts_fail (wire w) c i ->
  request (wire w ++ replicate i c) c = Responds r ->
  (attempt_loop n c None w).1 = Return (Some r).
Proof.
  revert n w; induction i as [|i IH]; intros n w Hi Hfail Hr.
  - destruct n as [|n]; [lia|]. simpl in *.
    rewrite app_nil_r in Hr. now rewrite Hr.
  - destruct n as [|n]; [lia|]. simpl.
    pose proof (Hfail 0%nat ltac:(lia)) as H0. simpl in H0.
    rewrite app_nil_r in H0. rewrite H0.
    apply IH; [lia | |].
    + intros j Hj. specialize (Hfail (S j) ltac:(lia)). simpl in *.
      now rewrite <- app_assoc.
    + simpl in *. now rewrite <- app_assoc.
Qed.

(** C9.  [flaky_request] tries the call at most [attempts] times,
    two by default; a [RequestException] never leaves it; it
    returns [None] exactly when every one of the [attempts] tries
    raises one.  [index_data], [bulk_index] and [delete_index] go
    through it with the default of two tries. *)
Theorem flaky_request_bounded_retry
    (method url : string) (kw : kwargs) (w : world) :
  let c := {| c_method := method; c_url := url; c_kwargs := kw |} in
  let n := Z.to_nat (default 2 (kw_attempts kw)) in
  (exists made,
      (made <= n)%nat
      /\ wire (flaky_request method url kw w).2
         = wire w ++ replicate made c
      /\ ((flaky_request method url kw w).1 = Return None ->
          made = n))
  /\ (flaky_request method url kw w).1 <> Raise RequestException
  /\ ((flaky_request method url kw w).1 = Return None <->
      all_attempts_fail (wire w) c n)
  /\ (forall i r,
         (i < n)%nat ->
         all_attempts_fail (wire w) c i ->
         request (wire w ++ replicate i c) c = Responds r ->
         (flaky_request method url kw w).1 = Return (Some r))
  /\ (kw_attempts kw = None -> n = 2%nat)
  /\ (forall index data type_ id_,
         index_data index data type_ id_
         = flaky_request "post"
             (join "/" [es_url; index; type_; id_])
             {| kw_attempts := None; kw_data := Some (json_dumps data) |})
  /\ (forall all_data,
         bulk_index all_data
         = flaky_request "post" (es_url +:+ "/_bulk")
             {| kw_attempts := None; kw_data := Some all_data |})
  /\ (forall index,
         delete_index index
         = flaky_request "delete" (join "/" [es_url; index])
             {| kw_attempts := None; kw_data := None |}).
Proof.
  intros c n.
  assert (Hrun : flaky_request method url kw w
                 = attempt_loop n c None w).
  { unfold flaky_request, bind, ret. fold c. fold n.
    destruct (attempt_loop n c None w) as [[[r|]|e] w'];
      reflexivity. }
  rewrite Hrun.
  destruct (attempt_loop_spec n c w)
    as [made (Hle & Hw & Hne & _ & Hiff & Hn)].
  repeat split; try done.
  - exists made. repeat split; assumption.
  - apply Hiff.
  - apply Hiff.
  - intros i r. apply attempt_loop_retry.
  - intros H. subst n. now rewrite H.
Qed.

End Requests.

(** *** Media identifiers *)

Lemma split_on_from_single (sep : ascii) (s cur : string) :
  occurs sep s = false -> split_on_from sep cur s = [cur +:+ s].
Proof.
  revert cur; induction s as [|x s IH]; intros cur H.
  - simpl. now rewrite append_empty_r.
  - simpl in *. apply orb_false_iff in H as [Hx Hs]. rewrite Hx.
    rewrite IH by assumption. now rewrite append_assoc.
Qed.

Lemma split_on_from_some (sep : ascii) (s cur : string) :
  (1 <= length (split_on_from sep cur s))%nat.
Proof.
  revert cur; induction s as [|x s IH]; intros cur; simpl; [lia|].
  destruct (Ascii.eqb x sep); [simpl; lia | apply IH].
Qed.

Lemma split_on_from_several (sep : ascii) (s cur : string) :
  occurs sep s = true -> (2 <= length (split_on_from sep cur s))%nat.
Proof.
  revert cur; induction s as [|x s IH]; intros cur H.
  - discriminate.
  - simpl in *. destruct (Ascii.eqb x sep).
    + simpl. pose proof (split_on_from_some sep s ""). lia.
    + now apply IH.
Qed.

Lemma first_normal_speed_spec (items : list (string * string)) :
  (first_normal_speed items = Raise IndexError <->
   forall k v, In (k, v) items -> str_in "1.0" k = false)
  /\ (forall uuid,
        first_normal_speed items = Return uuid ->
        exists k, In (k, uuid) items /\ str_in "1.0" k = true)
  /\ (forall e, first_normal_speed items = Raise e -> e = IndexError).
Proof.
  unfold first_normal_speed.
  destruct (List.filter (fun item => str_in "1.0" item.1) items)
    as [|[k0 u0] rest] eqn:Hf.
  - split; [| split; [discriminate | now intros e [= <-]]].
    split; [|reflexivity]. intros _ k v Hin.
    destruct (str_in "1.0" k) eqn:E; [|reflexivity].
    assert (Hx : In (k, v) (List.filter (fun item => str_in "1.0" item.1) items))
      by (apply filter_In; now split).
    rewrite Hf in Hx. contradiction.
  - assert (Hx : In (k0, u0) (List.filter (fun item => str_in "1.0" item.1) items))
      by (rewrite Hf; now left).
    apply filter_In in Hx as [Hin Hk]. simpl in Hk.
    split; [| split; [| discriminate]].
    + split; [discriminate|]. intros H. rewrite (H _ _ Hin) in Hk. discriminate.
    + simpl. intros uuid [= <-]. now exists k0.
Qed.




(** *** The text of a problem *)

Lemma created_addresses (l : list string) (f : nat -> nat) :
  (forall i, f i <> 0%nat) ->
  List.filter (fun text => is_not text Explanation)
              (imap (fun i s => {| address := f i; chars := s |}) l)
  = imap (fun i s => {| address := f i; chars := s |}) l.
Proof.
  intros Hf. revert f Hf. induction l as [|s l IH]; intros f Hf.
  - reflexivity.
  - simpl. unfold is_not at 1. simpl.
    destruct (Nat.eqb_spec (f 0%nat) 0); [now apply Hf in e|]. simpl.
    f_equal. apply (IH (f ∘ S)). intros i. apply Hf.
Qed.

Lemma chars_created (l : list string) : map chars (created l) = l.
Proof.
  unfold created. generalize S as f.
  induction l as [|s l IH]; intros f; [reflexivity|].
  simpl. f_equal. apply IH.
Qed.

(** C7 fails on the code: [text is not "Explanation"] compares the
    objects, and no string that [re.findall] makes is the object of the
    literal, so the test lets every paragraph through.  The extracted
    text of [<p>Explanation</p>] is ["Explanation "], and in general
    the paragraphs collected are all the bodies found, none left out. *)
Theorem explanation_paragraph_is_kept :
  problem_text "<p>Explanation</p>" = "Explanation "
  /\ searchable_text_from_problem_data
       (problem_module_of "p1" "<p>Explanation</p>")
     = Return "Explanation "
  /\ (forall data : string,
        map chars
          (List.filter (fun text => is_not text Explanation)
                       (created (Re.findall "<p>" "</p>" data)))
        = Re.findall "<p>" "</p>" data)
  /\ Re.findall "<p>" "</p>" "<p>Explanation</p>" = ["Explanation"].
Proof.
  repeat split.
  intros data. unfold created.
  rewrite (created_addresses _ S) by discriminate.
  apply chars_created.
Qed.

(** *** The orchestrator *)

Lemma filter_all {A} (p : A -> bool) (l : list A) :
  List.filter p l = l <-> forallb p l = true.
Proof.
  induction l as [|x l IH]; simpl; [tauto|].
  destruct (p x) eqn:Hp; simpl.
  - rewrite <- IH. split; [now intros [= ->] | now intros ->].
  - split; [|discriminate]. intros H.
    pose proof (List.filter_length_le p l) as Hle.
    rewrite H in Hle. simpl in Hle. lia.
Qed.

Lemma truthy_spec (v : text_value) :
  truthy v = true <-> v <> Str "" /\ v <> StrList [].
Proof.
  destruct v as [s | l]; simpl.
  - rewrite negb_true_iff. split.
    + intros H. split; [|discriminate]. intros [= ->]. discriminate.
    + intros [H _]. destruct s; [contradiction | reflexivity].
  - destruct l; split; try discriminate; try reflexivity.
    + now intros [_ H].
    + now intros _.
Qed.

Lemma complete_iff (data : document) :
  complete data = true <-> all_fields_non_empty data.
Proof.
  unfold complete, all_fields_non_empty.
  rewrite bool_decide_eq_true, filter_all, forallb_forall, List.Forall_forall.
  split; intros H v Hv; apply truthy_spec, H, Hv.
Qed.

Lemma incomplete_if_empty_field (data : document) :
  has_empty_field data -> complete data = false.
Proof.
  intros Hempty. destruct (complete data) eqn:E; [|reflexivity].
  apply complete_iff in E. unfold all_fields_non_empty in E.
  rewrite List.Forall_forall in E. now destruct (E _ Hempty).
Qed.

Section Indexing.

Context {services : Services}.

Lemma cached_offering_wire (m : mongo_module) (w : world) :
  wire (cached_offering m w).2 = wire w.
Proof.
  unfold cached_offering.
  destruct (MONGO_COURSE_CACHE w !! course (_id m)) as [offering|].
  - destruct (negb (String.eqb offering "")); [reflexivity|].
    destruct (course_name_from_mongo_module m); reflexivity.
  - destruct (course_name_from_mongo_module m); reflexivity.
Qed.

(** Building a document does not touch the network. *)
Lemma basic_dict_wire (m : mongo_module) (type_ : string) (w : world) :
  wire (basic_dict m type_ w).2 = wire w.
Proof.
  unfold basic_dict, bind, lift, ret.
  pose proof (cached_offering_wire m w) as Hw.
  destruct (cached_offering m w) as [[offering | e] w1]; [|exact Hw].
  destruct (get_searchable_text m type_); [|exact Hw].
  destruct (get_thumbnail m type_); exact Hw.
Qed.

Lemma submit_incomplete (index : string) (data : document) (w : world) :
  complete data = false -> submit index data w = (Return tt, w).
Proof. intros H. unfold submit. now rewrite H. Qed.

(** Submitting a complete document is the retry loop on its post,
    followed by the reading of [.content]. *)
Lemma submit_run (index : string) (data : document) (w : world) :
  complete data = true ->
  submit index data w
  = match attempt_loop 2 (post_call index data) None w with
    | (Return (Some _), w') => (Return tt, w')
    | (Return None, w') => (Raise AttributeError, w')
    | (Raise e, w') => (Raise e, w')
    end.
Proof.
  intros H. unfold submit. rewrite H.
  unfold index_data, flaky_request, bind, ret, raise.
  change (Z.to_nat (default 2 (kw_attempts _))) with 2%nat.
  fold (post_call index data).
  generalize (attempt_loop 2 (post_call index data) None w).
  intros [[[r|]|e] w']; reflexivity.
Qed.

(** A complete document is posted, once or twice; the submission
    ends in [AttributeError] when both tries fail. *)
Lemma submit_complete (index : string) (data : document) (w : world) :
  complete data = true ->
  exists made,
    (1 <= made <= 2)%nat
    /\ wire (submit index data w).2
       = wire w ++ replicate made (post_call index data)
    /\ (all_attempts_fail (wire w) (post_call index data) 2 ->
        (submit index data w).1 = Raise AttributeError /\ made = 2%nat).
Proof.
  intros H. rewrite (submit_run _ _ _ H).
  destruct (attempt_loop_spec 2 (post_call index data) w)
    as [made (Hle & Hw & Hne & Hpos & Hiff & Hn)].
  exists made. split; [specialize (Hpos ltac:(lia)); lia|].
  destruct (attempt_loop 2 (post_call index data) None w)
    as [[[r|]|e] w1]; simpl in *; (split; [exact Hw|]); intros Hall.
  - apply Hiff in Hall. discriminate.
  - split; [reflexivity | now apply Hn].
  - apply Hiff in Hall. discriminate.
Qed.

Lemma index_item_dispatch (item : mongo_module) (w : world) :
  index_item item w
  = match dispatch item with
    | Some (type_, index) =>
        bind (basic_dict item type_) (submit index) w
    | None => (Return tt, w)
    end.
Proof.
  unfold index_item, dispatch.
  destruct (String.eqb _ "video"); [reflexivity|].
  destruct (String.eqb _ "problem"); reflexivity.
Qed.

(** The calls an item adds to the wire: none, or the post of the
    complete document built from it, once or twice. *)
Lemma index_item_calls (item : mongo_module) (w : world) :
  wire (index_item item w).2 = wire w
  \/ exists type_ index data w1 made,
      dispatch item = Some (type_, index)
      /\ basic_dict item type_ w = (Return data, w1)
      /\ all_fields_non_empty data
      /\ (1 <= made <= 2)%nat
      /\ wire (index_item item w).2
         = wire w ++ replicate made (post_call index data).
Proof.
  rewrite index_item_dispatch.
  destruct (dispatch item) as [[type_ index]|] eqn:Hd; [|now left].
  unfold bind. pose proof (basic_dict_wire item type_ w) as Hw.
  destruct (basic_dict item type_ w) as [[data | e] w1] eqn:Hb;
    [|now left].
  simpl in Hw. destruct (complete data) eqn:Hc.
  - right. destruct (submit_complete index data w1 Hc)
      as [made (Hm & Hwire & _)].
    exists type_, index, data, w1, made.
    repeat split; try lia; try assumption.
    + now apply complete_iff.
    + now rewrite Hwire, Hw.
  - left. now rewrite (submit_incomplete _ _ _ Hc).
Qed.

Lemma index_items_app (before after : list mongo_module)
    (w w0 : world) :
  index_items before w = (Return tt, w0) ->
  index_items (before ++ after) w = index_items after w0.
Proof.
  revert w; induction before as [|item before IH]; intros w H.
  - simpl in *. unfold ret in H. now injection H as <-.
  - simpl in *. unfold bind in *.
    destruct (index_item item w) as [[[]|e] w1]; [|discriminate].
    now apply IH.
Qed.

Lemma index_items_calls (items : list mongo_module) (w : world) :
  exists calls,
    wire (index_items items w).2 = wire w ++ calls
    /\ Forall (fun c =>
                 exists item type_ index data w0 w1,
                   In item items
                   /\ dispatch item = Some (type_, index)
                   /\ basic_dict item type_ w0 = (Return data, w1)
                   /\ all_fields_non_empty data
                   /\ c = post_call index data) calls.
Proof.
  revert w; induction items as [|item items IH]; intros w.
  - exists []. split; [simpl; now rewrite app_nil_r | constructor].
  - simpl. unfold bind.
    assert (Hhere : exists calls,
               wire (index_item item w).2 = wire w ++ calls
               /\ Forall (fun c =>
                            exists item' type_ index data w0 w1,
                              In item' (item :: items)
                              /\ dispatch item' = Some (type_, index)
                              /\ basic_dict item' type_ w0 = (Return data, w1)
                              /\ all_fields_non_empty data
                              /\ c = post_call index data) calls).
    { destruct (index_item_calls item w)
        as [Hw | (type_ & index & data & w1 & made & Hd & Hb & Hc & _ & Hw)].
      - exists []. split; [now rewrite app_nil_r | constructor].
      - exists (replicate made (post_call index data)).
        split; [exact Hw|]. apply Forall_replicate.
        exists item, type_, index, data, w, w1.
        repeat split; try assumption. now left. }
    destruct Hhere as [calls1 [Hw1 Hall1]].
    destruct (index_item item w) as [[[]|e] w1]; simpl in Hw1.
    + destruct (IH w1) as [calls2 [Hw2 Hall2]].
      exists (calls1 ++ calls2). split.
      * now rewrite Hw2, Hw1, app_assoc.
      * apply Forall_app. split; [exact Hall1|].
        eapply Forall_impl; [exact Hall2|].
        intros c (item' & type_ & index & data & w0 & w2 & Hin & Hrest).
        exists item', type_, index, data, w0, w2.
        split; [now right | exact Hrest].
    + exists calls1. split; [exact Hw1 | exact Hall1].
Qed.

(** C2.  For an item that [index_course] dispatches and builds a
    document for: if a field of the document is the empty string,
    the item is passed over and nothing is sent; if no field is
    empty, the document is posted to its index (once, or twice when
    the first try fails).  Over a whole course every call made is
    the post of a document without an empty field, built from one of
    the course's items; each item is handled in the state the items
    before it have left.  So for [index_course] itself and an item of
    the course that the run reaches: when its document has an empty
    field the run goes on with the items after it and the wire is as it
    was before the item; when no field is empty the wire of the whole
    run holds, right after the calls made before the item, the post of
    its document, once or twice.  On a course of a blank problem and a
    question, [index_course] makes one call, the post of the question's
    document. *)
Theorem index_course_submits_complete_documents_only :
  (forall item type_ index data w w1,
      dispatch item = Some (type_, index) ->
      basic_dict item type_ w = (Return data, w1) ->
      (has_empty_field data ->
       index_item item w = (Return tt, w1) /\ wire w1 = wire w)
      /\ (all_fields_non_empty data ->
          exists made,
            (1 <= made <= 2)%nat
            /\ wire (index_item item w).2
               = wire w ++ replicate made (post_call index data)))
  /\ (forall course w,
        exists calls,
          wire (index_course course w).2 = wire w ++ calls
          /\ Forall (fun c =>
                       exists item type_ index data w0 w1,
                         In item (find_modules_for_course course)
                         /\ dispatch item = Some (type_, index)
                         /\ basic_dict item type_ w0 = (Return data, w1)
                         /\ all_fields_non_empty data
                         /\ c = post_call index data) calls)
  /\ (forall before item after w w0,
        index_items before w = (Return tt, w0) ->
        index_items (before ++ item :: after) w
        = bind (index_item item) (fun _ => index_items after) w0)
  /\ (forall course w before item after type_ index w0 data w1,
        find_modules_for_course course = before ++ item :: after ->
        index_items before w = (Return tt, w0) ->
        dispatch item = Some (type_, index) ->
        basic_dict item type_ w0 = (Return data, w1) ->
        (has_empty_field data ->
         index_course course w = index_items after w1
         /\ wire w1 = wire w0)
        /\ (all_fields_non_empty data ->
            exists made rest,
              (1 <= made <= 2)%nat
              /\ wire (index_course course w).2
                 = wire w0 ++ replicate made (post_call index data) ++ rest))
  /\ (exists blank sound w0 w1,
        @basic_dict blank_then_sound
                   (problem_module_of "p0" "<p>  </p><p> </p>") "problem"
                   empty_world = (Return blank, w0)
        /\ has_empty_field blank
        /\ @basic_dict blank_then_sound
                      (problem_module_of "p1" "<p>What is 2+2?</p>") "problem"
                      w0 = (Return sound, w1)
        /\ all_fields_non_empty sound
        /\ (@index_course blank_then_sound "6.002x" empty_world).1
           = Return tt
        /\ wire (@index_course blank_then_sound
                              "6.002x" empty_world).2
           = [@post_call blank_then_sound "problem-index" sound]).
Proof.
  split; [| split; [| split; [| split]]].
  - intros item type_ index data w w1 Hd Hb.
    pose proof (basic_dict_wire item type_ w) as Hw.
    rewrite index_item_dispatch, Hd. unfold bind. rewrite Hb in *.
    simpl in Hw. split.
    + intros Hempty.
      rewrite (submit_incomplete _ _ _ (incomplete_if_empty_field _ Hempty)).
      now split.
    + intros Hfull. apply complete_iff in Hfull.
      destruct (submit_complete index data w1 Hfull)
        as [made (Hm & Hwire & _)].
      exists made. split; [exact Hm | now rewrite Hwire, Hw].
  - intros course w. apply index_items_calls.
  - intros before item after w w0 H.
    now rewrite (index_items_app _ _ _ _ H).
  - intros course w before item after type_ index w0 data w1
           Hmods Hbefore Hd Hb.
    assert (Hrun : index_course course w
                   = bind (index_item item) (fun _ => index_items after) w0).
    { unfold index_course. rewrite Hmods.
      now rewrite (index_items_app _ _ _ _ Hbefore). }
    assert (Hitem : index_item item w0 = submit index data w1).
    { rewrite index_item_dispatch, Hd. unfold bind. now rewrite Hb. }
    pose proof (basic_dict_wire item type_ w0) as Hw.
    rewrite Hb in Hw. simpl in Hw.
    rewrite Hrun. unfold bind. rewrite Hitem. split.
    + intros Hempty.
      rewrite (submit_incomplete _ _ _ (incomplete_if_empty_field _ Hempty)).
      now split.
    + intros Hfull. apply complete_iff in Hfull.
      destruct (submit_complete index data w1 Hfull)
        as [made (Hm & Hwire & _)].
      destruct (submit index data w1) as [[[]|e] w2]; simpl in Hwire.
      * destruct (index_items_calls after w2) as [rest [Hrest _]].
        exists made, rest. split; [exact Hm|].
        now rewrite Hrest, Hwire, Hw, <- app_assoc.
      * exists made, []. split; [exact Hm|].
        simpl. now rewrite app_nil_r, Hwire, Hw.
  - eexists _, _, _, _.
    split; [vm_compute; reflexivity|].
    split; [unfold has_empty_field; simpl; tauto|].
    split; [vm_compute; reflexivity|].
    split; [apply complete_iff; vm_compute; reflexivity|].
    split; vm_compute; reflexivity.
Qed.

(** When both tries of a complete document's post fail, the loop
    ends there with [AttributeError], whatever items remain. *)
Lemma index_items_abort (item : mongo_module) (rest : list mongo_module)
    (type_ index : string) (data : document) (w w1 : world) :
  dispatch item = Some (type_, index) ->
  basic_dict item type_ w = (Return data, w1) ->
  complete data = true ->
  all_attempts_fail (wire w) (post_call index data) 2 ->
  (index_items (item :: rest) w).1 = Raise AttributeError
  /\ wire (index_items (item :: rest) w).2
     = wire w ++ [post_call index data; post_call index data].
Proof.
  intros Hd Hb Hc Hfail.
  pose proof (basic_dict_wire item type_ w) as Hw.
  rewrite Hb in Hw. simpl in Hw. rewrite <- Hw in Hfail.
  destruct (submit_complete index data w1 Hc) as [made (_ & Hwire & Hab)].
  destruct (Hab Hfail) as [Hr ->].
  assert (Hitem : index_item item w = submit index data w1).
  { rewrite index_item_dispatch, Hd. unfold bind. now rewrite Hb. }
  simpl. unfold bind. rewrite Hitem.
  destruct (submit index data w1) as [[[]|e] w2]; simpl in *;
    try discriminate.
  split; [exact Hr | now rewrite Hwire, Hw].
Qed.

End Indexing.

(** The two halves of C2 on the course of a blank problem and a
    question, on an engine that answers: the blank problem gives an
    empty [searchable_text], and [index_course] goes on to the question
    with nothing sent; the question's document is posted by
    [index_course] after it. *)
Lemma index_course_submits_complete_documents_only_witness :
  let services := blank_then_sound in
  let blank := problem_module_of "p0" "<p>  </p><p> </p>" in
  let sound := problem_module_of "p1" "<p>What is 2+2?</p>" in
  (exists data w1,
      basic_dict blank "problem" empty_world = (Return data, w1)
      /\ searchable_text data = Str ""
      /\ index_course "6.002x" empty_world = index_items [sound] w1
      /\ wire w1 = wire empty_world)
  /\ (exists w0 data w1 made rest,
        index_items [blank] empty_world = (Return tt, w0)
        /\ basic_dict sound "problem" w0 = (Return data, w1)
        /\ (1 <= made <= 2)%nat
        /\ wire (index_course "6.002x" empty_world).2
           = wire w0 ++ replicate made (post_call "problem-index" data)
                     ++ rest).
Proof.
  intros services blank sound.
  pose proof (proj1 (proj2 (proj2 (proj2
                (@index_course_submits_complete_documents_only services)))))
    as Hcourse.
  split.
  - eexists _, _. split; [vm_compute; reflexivity|].
    split; [reflexivity|].
    eapply (proj1 (Hcourse "6.002x" empty_world [] blank [sound]
                           "problem" "problem-index" empty_world _ _
                           eq_refl eq_refl eq_refl eq_refl)).
    unfold has_empty_field. simpl. tauto.
  - destruct (Hcourse "6.002x" empty_world [blank] sound []
                      "problem" "problem-index" _ _ _
                      eq_refl eq_refl eq_refl eq_refl) as [_ Hfull].
    destruct Hfull as (made & rest & Hm & Hw).
    + apply complete_iff. vm_compute. reflexivity.
    + eexists _, _, _, made, rest.
      split; [reflexivity|]. split; [reflexivity|].
      split; [exact Hm | exact Hw].
Defined.

(** C3 fails on the code.  On a course of two problems and an engine
    that cannot be reached, [index_data] returns [None] for the first
    document after its two tries, reading [.content] off it raises
    [AttributeError], and [index_course] ends there: the second
    problem, whose document is complete, is never posted. *)
Theorem index_course_aborts_on_absent_response :
  let services := two_problems false in
  let run := index_course "6.002x" empty_world in
  run.1 = Raise AttributeError
  /\ (exists first w1,
        basic_dict (problem_module_of "p1" "<p>What is 2+2?</p>") "problem"
                   empty_world = (Return first, w1)
        /\ wire run.2 = [post_call "problem-index" first;
                         post_call "problem-index" first])
  /\ (exists second w2,
        basic_dict (problem_module_of "p2" "<p>What is 3+3?</p>") "problem"
                   run.2 = (Return second, w2)
        /\ complete second = true
        /\ ~ In (post_call "problem-index" second) (wire run.2)).
Proof.
  intros services run. split; [vm_compute; reflexivity|]. split.
  - eexists _, _. split; [vm_compute; reflexivity | vm_compute; reflexivity].
  - eexists _, _. split; [vm_compute; reflexivity|].
    split; [vm_compute; reflexivity|].
    vm_compute. intros [H | [H | []]]; discriminate.
Qed.

End EsRequestsFacts.


(** * Properties of the rest *)

(** ** The result models *)

Module ModelsRestFacts.

Import Py Notions PyFacts RestNotions.
Import Models ModelsRest ModelsFacts.

(** *** The fuzzy matcher and the highlighter *)

Lemma len_nonneg (s : string) : 0 <= len s.
Proof. unfold len. lia. Qed.

(** X1.  [_match] does not depend on the order of the two words. *)
Theorem match_symmetric (w0 w1 : string) :
  _match (w0, w1) = _match (w1, w0).
Proof.
  unfold _match, contained, near_size. simpl.
  rewrite (orb_comm (str_in w0 w1)).
  replace (len w0 - len w1) with (- (len w1 - len w0)) by lia.
  now rewrite Z.abs_opp, (Z.add_comm (len w0)).
Qed.

Lemma match_lengths (w0 w1 : string) :
  _match (w0, w1) = true ->
  3 <= len w0 /\ 3 <= len w1
  /\ 5 * Z.abs (len w0 - len w1) + 6 <= 2 * Z.min (len w0) (len w1).
Proof.
  intros H. unfold _match in H. simpl in H.
  apply andb_true_iff in H as [_ H]. apply near_size_spec in H.
  pose proof (len_nonneg w0). pose proof (len_nonneg w1). lia.
Qed.

Lemma match_self (w : string) : _match (w, w) = true <-> 3 <= len w.
Proof.
  unfold _match, contained. simpl.
  rewrite andb_true_iff, near_size_spec, orb_diag.
  pose proof (len_nonneg w). split.
  - intros [_ H1]. lia.
  - intros H1. split; [| lia].
    apply str_in_spec. exists "", "". now rewrite append_empty_r.
Qed.

(** X2.  Two words that match have at least three characters each, and
    five times the difference of their lengths plus six is at most
    twice the shorter length; a word matches itself exactly when it has
    at least three characters. *)
Theorem match_needs_three_characters :
  (forall w0 w1,
      _match (w0, w1) = true ->
      3 <= len w0 /\ 3 <= len w1
      /\ 5 * Z.abs (len w0 - len w1) + 6 <= 2 * Z.min (len w0) (len w1))
  /\ (forall w, _match (w, w) = true <-> 3 <= len w).
Proof. split; [apply match_lengths | apply match_self]. Qed.





Lemma concat_spaced_words (ws : list string) :
  Forall is_word ws ->
  split (concat_strings (map (fun w => w +:+ " ") ws)) = ws.
Proof.
  induction 1 as [|w ws Hw Hws IH]; [reflexivity|].
  simpl. rewrite append_assoc.
  change (" " +:+ concat_strings (map (fun w0 => w0 +:+ " ") ws))
    with (String " " (concat_strings (map (fun w0 => w0 +:+ " ") ws))).
  rewrite split_blank by reflexivity.
  now rewrite IH, (split_word _ Hw).
Qed.

(** X4.  When no word of the response is highlighted, as with a blank
    query, the highlighter returns the words of the response each
    followed by one space: the blanks of the response are normalised and
    its words are unchanged. *)
Theorem highlighter_without_match_keeps_words (query response : string) :
  Forall (fun word => highlighted query word = false) (split response) ->
  _match_highlighter query response
  = concat_strings (map (fun word => word +:+ " ") (split response))
  /\ split (_match_highlighter query response) = split response.
Proof.
  intros Hnone.
  assert (E : _match_highlighter query response
              = concat_strings (map (fun word => word +:+ " ") (split response))).
  { rewrite match_highlighter_render. f_equal.
    induction Hnone as [|w ws Hw Hws IH]; [reflexivity|].
    simpl. unfold render at 1. now rewrite Hw, IH. }
  split; [exact E|]. rewrite E. apply concat_spaced_words, split_words.
Qed.

(** A blank query on a response with scattered blanks. *)
Lemma highlighter_without_match_keeps_words_witness :
  _match_highlighter "  " "  History   begins here. "
  = "History begins here. "
  /\ split (_match_highlighter "  " "  History   begins here. ")
     = ["History"; "begins"; "here."].
Proof.
  apply (highlighter_without_match_keeps_words "  " "  History   begins here. ").
  vm_compute. repeat constructor.
Defined.

(** *** The length of a snippet *)

Lemma words_blank (a b : string) : words (a +:+ " " +:+ b) = words a + words b.
Proof.
  unfold words, llen.
  change (" " +:+ b) with (String " " b).
  rewrite split_blank by reflexivity. rewrite length_app. lia.
Qed.

Lemma words_margin (word_margin : Z) (sentence : string) :
  0 <= word_margin ->
  words (join " " (slice_to word_margin (split sentence))) <= word_margin.
Proof.
  intros Hwm. unfold words.
  rewrite split_join by apply slice_to_words, split_words.
  rewrite slice_to_nonneg by assumption.
  unfold llen. rewrite length_take. lia.
Qed.

Lemma accumulate_words (soft_max word_margin : Z) (sentences : list string)
    (response : string) :
  0 <= word_margin ->
  words (accumulate soft_max word_margin sentences response)
  <= Z.max (words response) (soft_max - 1) + word_margin.
Proof.
  intros Hwm. revert response.
  induction sentences as [|s ss IH]; intros response; simpl.
  - lia.
  - destruct (fits soft_max response s) eqn:Hfit.
    + specialize (IH (response +:+ " " +:+ s)).
      rewrite words_blank in IH. unfold fits in Hfit.
      apply Z.ltb_lt in Hfit. unfold words in *. lia.
    + unfold margin_of. rewrite words_blank.
      pose proof (words_margin word_margin s Hwm). lia.
Qed.

(** X5.  With a [word_margin] that is not negative, the snippet before
    highlighting has at least [n] and at most
    [max(n, soft_max - 1) + word_margin] words, where [n] is the number
    of words of the sentence it starts at: the first sentence of the
    text that mentions the query, no sentence before it doing so, and 0
    when none does. *)
Theorem snippet_word_count_bounded
    (tokenize : string -> list string) (transcript query : string)
    (soft_max word_margin : Z) :
  0 <= word_margin ->
  exists start,
    (start = "" /\ Forall (fun s => ~ mentions query s) (tokenize transcript)
     \/ exists before after,
         tokenize transcript = before ++ start :: after
         /\ Forall (fun s => ~ mentions query s) before
         /\ mentions query start)
    /\ words start
       <= words (_snippet_generator tokenize transcript query
                                    soft_max word_margin false)
       <= Z.max (words start) (soft_max - 1) + word_margin.
Proof.
  intros Hwm. unfold _snippet_generator.
  destruct (first_loop_cases query soft_max word_margin (tokenize transcript) "")
    as [[Hnone E] | (before & s & after & Htok & Hb & Hs & E)]; rewrite E.
  - exists "". split; [now left|]. split; [|now apply accumulate_words].
    change (words "") with 0. unfold words, llen. lia.
  - exists s. split.
    + right. now exists before, after.
    + rewrite append_empty_l. split; [|now apply accumulate_words].
      destruct (accumulate_extends soft_max word_margin after s)
        as [rest [-> Hrest]].
      unfold words, llen. rewrite (split_response_rest _ _ Hrest).
      rewrite length_app. lia.
Qed.

(** The text of the example under [soft_max = 5] and [word_margin = 2]:
    the snippet has the three words of its first sentence and two
    more. *)
Lemma snippet_word_count_bounded_witness :
  exists start,
    (start = ""
     /\ Forall (fun s => ~ mentions "history" s)
               ["Intro sentence."; "History begins here.";
                "More details follow with extra words to pad length."]
     \/ exists before after,
         ["Intro sentence."; "History begins here.";
          "More details follow with extra words to pad length."]
         = before ++ start :: after
         /\ Forall (fun s => ~ mentions "history" s) before
         /\ mentions "history" start)
    /\ words start
       <= words (_snippet_generator
                   (fun _ => ["Intro sentence."; "History begins here.";
                              "More details follow with extra words to pad length."])
                   "" "history" 5 2 false)
       <= Z.max (words start) (5 - 1) + 2.
Proof.
  apply (snippet_word_count_bounded
           (fun _ => ["Intro sentence."; "History begins here.";
                      "More details follow with extra words to pad length."])
           "" "history" 5 2).
  lia.
Defined.

(** *** Counters *)

Lemma Counter_fold (l : list string) (counter : gmap string nat) (k : string) :
  default 0%nat
    (fold_left (fun counter item =>
                  <[item := S (default 0%nat (counter !! item))]> counter)
               l counter !! k)
  = (default 0%nat (counter !! k) + occurrences k l)%nat.
Proof.
  revert counter; induction l as [|x l IH]; intros counter; simpl.
  - unfold occurrences. simpl. lia.
  - rewrite IH. unfold occurrences. simpl.
    destruct (String.eqb_spec k x) as [-> | Hne].
    + rewrite lookup_insert_eq. simpl. lia.
    + rewrite lookup_insert_ne by congruence. lia.
Qed.

Lemma Counter_positive (l : list string) (counter : gmap string nat) :
  (forall k n, counter !! k = Some n -> (1 <= n)%nat) ->
  forall k n,
    fold_left (fun counter item =>
                 <[item := S (default 0%nat (counter !! item))]> counter)
              l counter !! k = Some n ->
    (1 <= n)%nat.
Proof.
  revert counter; induction l as [|x l IH]; intros counter Hpos k n; simpl.
  - apply Hpos.
  - apply IH. intros k' n'.
    destruct (decide (x = k')) as [-> | Hne].
    + rewrite lookup_insert_eq. intros [= <-]. lia.
    + rewrite lookup_insert_ne by assumption. apply Hpos.
Qed.

(** X6.  [get_counter(field)] raises [KeyError] exactly when some entry
    lacks the field.  Otherwise the counter gives, for every text, the
    number of entries whose lowered field is that text; it holds no
    zero, and its counts add up over the entries: a text is a key
    exactly when some entry has it. *)
Theorem get_counter_counts_lowered_fields
    (self : SearchResults) (field : string) :
  (get_counter self field = None <->
   exists entry, In entry (entries self) /\ data entry !! field = None)
  /\ (forall counter,
        get_counter self field = Some counter ->
        exists master_list,
          Forall2 (fun entry item => lower <$> data entry !! field = Some item)
                  (entries self) master_list
          /\ (forall k, default 0%nat (counter !! k) = occurrences k master_list)
          /\ (forall k n, counter !! k = Some n -> (1 <= n)%nat)
          /\ (forall k, is_Some (counter !! k) <-> In k master_list)).
Proof.
  unfold get_counter. split.
  - assert (Hnone :
      mapM (fun entry => lower <$> data entry !! field) (entries self) = None
      <-> exists entry, In entry (entries self) /\ data entry !! field = None).
    { rewrite mapM_None, Exists_exists.
      split; intros [entry [Hin H]]; exists entry;
        (split; [now apply list_elem_of_In|]).
      - destruct (data entry !! field); [discriminate | reflexivity].
      - now rewrite H. }
    rewrite <- Hnone.
    destruct (mapM _ (entries self)); simpl; split; congruence.
  - intros counter H.
    destruct (mapM _ (entries self)) as [master_list|] eqn:E; simpl in H;
      [|discriminate].
    injection H as <-. apply mapM_Some in E.
    exists master_list. split; [exact E|].
    assert (Hcount : forall k,
               default 0%nat (Counter master_list !! k)
               = occurrences k master_list).
    { intros k. unfold Counter. rewrite Counter_fold.
      now rewrite lookup_empty. }
    assert (Hpos : forall k n, Counter master_list !! k = Some n -> (1 <= n)%nat).
    { apply Counter_positive. intros k n. now rewrite lookup_empty. }
    repeat split; try assumption.
    + intros [n Hn]. specialize (Hcount k). specialize (Hpos _ _ Hn).
      rewrite Hn in Hcount. simpl in Hcount. unfold occurrences in Hcount.
      destruct (List.filter (String.eqb k) master_list) as [|x xs] eqn:Hf;
        [simpl in Hcount; lia|].
      assert (Hx : In x (List.filter (String.eqb k) master_list))
        by (rewrite Hf; now left).
      apply filter_In in Hx as [Hx Hk]. apply String.eqb_eq in Hk. now subst.
    + intros Hin. specialize (Hcount k).
      destruct (Counter master_list !! k) as [n|]; [now exists n|].
      simpl in Hcount. unfold occurrences in Hcount.
      assert (Hx : In k (List.filter (String.eqb k) master_list)).
      { apply filter_In. split; [assumption | apply String.eqb_refl]. }
      destruct (List.filter (String.eqb k) master_list);
        [contradiction | simpl in Hcount; lia].
Qed.

(** *** The union of the filters *)

Lemma elem_of_fold_filters (self : SearchResults)
    (l : list (string * option string)) (acc : gset nat) (i : nat) :
  i ∈ fold_left (fun acc '(field, value) => acc ∪ Models.filter self field value)
                l acc
  <-> i ∈ acc
      \/ exists field value,
           In (field, value) l /\ i ∈ Models.filter self field value.
Proof.
  revert acc; induction l as [|[f v] l IH]; intros acc; simpl.
  - split; [now left | intros [H | (? & ? & [] & _)]; exact H].
  - rewrite IH, elem_of_union. split.
    + intros [[H | H] | (f' & v' & Hin & H)].
      * now left.
      * right. exists f, v. split; [now left | exact H].
      * right. exists f', v'. split; [now right | exact H].
    + intros [H | (f' & v' & [Heq | Hin] & H)].
      * left. now left.
      * injection Heq as <- <-. left. now right.
      * right. now exists f', v'.
Qed.

Lemma elem_of_full_results (self : SearchResults) (i : nat) :
  i ∈ full_results self <->
  exists field value,
    filters self !! field = Some value /\ i ∈ Models.filter self field value.
Proof.
  unfold full_results. rewrite elem_of_fold_filters. split.
  - intros [H | (f & v & Hin & H)]; [now apply not_elem_of_empty in H|].
    exists f, v. split; [|exact H].
    now apply elem_of_map_to_list, list_elem_of_In.
  - intros (f & v & Hl & H). right. exists f, v. split; [|exact H].
    now apply list_elem_of_In, elem_of_map_to_list.
Qed.

Lemma filter_within_entries (self : SearchResults) (field : string)
    (value : option string) (i : nat) :
  i ∈ Models.filter self field value -> (i < length (entries self))%nat.
Proof.
  intros H. apply elem_of_filter in H as [entry [Hl _]].
  now apply lookup_lt_Some in Hl.
Qed.

Lemma length_omap_le {A B} (f : A -> option B) (l : list A) :
  (length (omap f l) <= length l)%nat.
Proof.
  induction l as [|x l IH]; csimpl; [lia|].
  destruct (f x); csimpl; lia.
Qed.

(** X7.  [filter_and_sort] hands to the sort the entries that pass at
    least one of the filters: an entry is kept exactly when some field
    of [filters] has a value that the entry's field contains (after
    normalisation), and there are at most as many as before.  With an
    empty [filters] dictionary nothing is kept; with a filter whose
    value is [None] or [""] everything is. *)
Theorem filter_and_sort_keeps_union_of_filters
    (sorting_sort : list SearchResult -> option string -> list SearchResult)
    (self : SearchResults) :
  (forall entry,
      In entry (filtered_entries self) <->
      exists i field value,
        entries self !! i = Some entry
        /\ filters self !! field = Some value
        /\ to_filter (default "" value) entry field = true)
  /\ entries (filter_and_sort sorting_sort self)
     = sorting_sort (filtered_entries self) (sort self)
  /\ (length (filtered_entries self) <= length (entries self))%nat
  /\ (filters self = ∅ -> filtered_entries self = [])
  /\ (forall field value,
        filters self !! field = Some value ->
        value = None \/ value = Some "" ->
        full_results self = set_seq 0 (length (entries self))).
Proof.
  split; [| split; [reflexivity | split; [| split]]].
  - intros entry. unfold filtered_entries.
    rewrite <- list_elem_of_In, list_elem_of_omap. split.
    + intros [i [Hi Hl]]. apply elem_of_elements, elem_of_full_results in Hi.
      destruct Hi as (f & v & Hf & Hi).
      apply elem_of_filter in Hi as [entry' [Hl' Ht]].
      rewrite Hl in Hl'. injection Hl' as <-. now exists i, f, v.
    + intros (i & f & v & Hl & Hf & Ht). exists i. split; [|exact Hl].
      apply elem_of_elements, elem_of_full_results. exists f, v.
      split; [exact Hf|]. apply elem_of_filter. now exists entry.
  - unfold filtered_entries.
    etransitivity; [apply length_omap_le|].
    change (length (elements (full_results self)))
      with (size (full_results self)).
    rewrite <- (size_set_seq (C:=gset nat) 0 (length (entries self))).
    apply subseteq_size. intros i Hi.
    apply elem_of_full_results in Hi as (f & v & _ & Hi).
    apply filter_within_entries in Hi. apply elem_of_set_seq. lia.
  - intros Hempty. unfold filtered_entries, full_results.
    now rewrite Hempty, map_to_list_empty.
  - intros field value Hf Hv. apply set_eq. intros i.
    rewrite elem_of_full_results, elem_of_set_seq. split.
    + intros (f & v & _ & Hi). apply filter_within_entries in Hi. lia.
    + intros [_ Hi]. exists field, value. split; [exact Hf|].
      apply elem_of_filter.
      destruct (lookup_lt_is_Some_2 (entries self) i ltac:(lia)) as [entry Hl].
      exists entry. split; [exact Hl|].
      assert (default "" value = "") as -> by (destruct Hv as [-> | ->]; reflexivity).
      unfold to_filter. apply str_in_empty.
Qed.

(** X8.  [filter] looks at the value only through its lowered,
    punctuation-free form: two values with the same such form select the
    same entries, and a value made of punctuation alone selects every
    entry. *)
Theorem filter_sees_normalised_value
    (self : SearchResults) (field : string) :
  (forall v1 v2,
      normalise v1 = normalise v2 ->
      Models.filter self field (Some v1) = Models.filter self field (Some v2))
  /\ (forall v,
        normalise v = "" ->
        Models.filter self field (Some v) = set_seq 0 (length (entries self)))
  /\ normalise "?!" = ""
  /\ normalise "Problem." = normalise "problem".
Proof.
  split; [| split; [| split; reflexivity]].
  - intros v1 v2 Hn. apply set_eq. intros i. rewrite !elem_of_filter.
    simpl. unfold to_filter. now rewrite !strip_punc_normalise, Hn.
  - intros v Hn. apply set_eq. intros i.
    rewrite elem_of_filter, elem_of_set_seq. simpl. unfold to_filter.
    rewrite strip_punc_normalise, Hn. split.
    + intros [entry [Hl _]]. apply lookup_lt_Some in Hl. lia.
    + intros [_ Hi].
      destruct (lookup_lt_is_Some_2 (entries self) i ltac:(lia)) as [entry Hl].
      exists entry. split; [exact Hl | apply str_in_empty].
Qed.

End ModelsRestFacts.

(** ** The indexer *)

Module EsRequestsRestFacts.

Import Py Notions PyFacts RestNotions.
Import EsRequests EsRequestsRest IndexerNotions EsRequestsFacts.

(** *** Speed entries *)

Lemma split_on_from_cut (sep : ascii) (a b cur : string) :
  occurs sep a = false ->
  split_on_from sep cur (a +:+ String sep b)
  = (cur +:+ a) :: split_on_from sep "" b.
Proof.
  revert cur; induction a as [|x a IH]; intros cur H.
  - rewrite append_empty_l, append_empty_r. simpl.
    now rewrite Ascii.eqb_refl.
  - simpl in H. apply orb_false_iff in H as [Hx Ha].
    rewrite append_cons. simpl. rewrite Hx, IH by assumption.
    now rewrite append_assoc.
Qed.

Lemma occurs_append (c : ascii) (a b : string) :
  occurs c (a +:+ b) = (occurs c a || occurs c b)%bool.
Proof.
  induction a as [|x a IH]; [reflexivity|].
  rewrite append_cons. simpl. now rewrite IH, orb_assoc.
Qed.

Lemma entry_pair_plain (entry : string) :
  occurs ":" entry = false -> entry_pair entry = (entry, "").
Proof.
  intros H. unfold entry_pair, split_on.
  change (entry +:+ ":") with (entry +:+ String ":" "").
  now rewrite (split_on_from_cut _ _ _ _ H).
Qed.

Lemma entry_pair_colon (speed uuid rest : string) :
  occurs ":" speed = false -> occurs ":" uuid = false ->
  entry_pair (speed +:+ ":" +:+ uuid +:+ rest) = (speed, uuid)
  \/ exists c more, rest = String c more /\ c <> ":"%char.
Proof.
  intros Hs Hu. destruct rest as [|c more].
  - left. unfold entry_pair, split_on.
    rewrite append_empty_r, !append_assoc.
    change (":" +:+ uuid +:+ ":") with (String ":" (uuid +:+ String ":" "")).
    rewrite (split_on_from_cut _ _ _ _ Hs), (split_on_from_cut _ _ _ _ Hu).
    reflexivity.
  - destruct (Ascii.eqb_spec c ":") as [-> | Hc]; [left | right; eauto].
    unfold entry_pair, split_on. rewrite !append_assoc.
    change (":" +:+ uuid +:+ String ":" more +:+ ":")
      with (String ":" (uuid +:+ String ":" (more +:+ ":"))).
    rewrite (split_on_from_cut _ _ _ _ Hs), (split_on_from_cut _ _ _ _ Hu).
    reflexivity.
Qed.

(** X9.  The colon appended to an entry guarantees the two pieces that
    the dictionary comprehension reads: an entry without a colon gives
    its whole text as speed and [""] as identifier; [speed:uuid] gives
    the two parts, and so does [speed:uuid:more], the text after a second
    colon being dropped. *)
Theorem entry_pair_reads_speed_and_uuid :
  (forall entry, (2 <= length (split_on ":" (entry +:+ ":")))%nat)
  /\ (forall entry, occurs ":" entry = false -> entry_pair entry = (entry, ""))
  /\ (forall speed uuid,
        occurs ":" speed = false -> occurs ":" uuid = false ->
        entry_pair (speed +:+ ":" +:+ uuid) = (speed, uuid))
  /\ (forall speed uuid more,
        occurs ":" speed = false -> occurs ":" uuid = false ->
        entry_pair (speed +:+ ":" +:+ uuid +:+ ":" +:+ more) = (speed, uuid)).
Proof.
  repeat split.
  - intros entry. apply split_on_from_several.
    rewrite occurs_append. simpl. apply orb_true_r.
  - apply entry_pair_plain.
  - intros speed uuid Hs Hu.
    destruct (entry_pair_colon speed uuid "" Hs Hu) as [H | (c & m & H & _)];
      [| discriminate].
    now rewrite append_empty_r in H.
  - intros speed uuid more Hs Hu.
    destruct (entry_pair_colon speed uuid (":" +:+ more) Hs Hu)
      as [H | (c & m & H & Hc)]; [exact H|].
    injection H as <- _. contradiction.
Qed.

(** *** The speed map and the identifier *)

Lemma speed_fold_lookup (l : list string) (m : gmap string string)
    (k v : string) :
  fold_left (fun m entry => <[(entry_pair entry).1 := (entry_pair entry).2]> m)
            l m !! k = Some v ->
  m !! k = Some v \/ exists entry, In entry l /\ entry_pair entry = (k, v).
Proof.
  revert m; induction l as [|e l IH]; intros m H; simpl in H; [now left|].
  apply IH in H as [H | (entry & Hin & Hp)].
  - destruct (decide ((entry_pair e).1 = k)) as [Hk | Hk].
    + subst k. rewrite lookup_insert_eq in H. injection H as <-.
      right. exists e. split; [now left | apply surjective_pairing].
    + rewrite lookup_insert_ne in H by assumption. now left.
  - right. exists entry. split; [now right | exact Hp].
Qed.

Lemma speed_fold_keys (l : list string) (m : gmap string string) (k : string) :
  is_Some (m !! k) \/ (exists entry, In entry l /\ (entry_pair entry).1 = k) ->
  is_Some (fold_left (fun m entry =>
                        <[(entry_pair entry).1 := (entry_pair entry).2]> m)
                     l m !! k).
Proof.
  revert m; induction l as [|e l IH]; intros m H; simpl.
  - destruct H as [H | (? & [] & _)]. exact H.
  - apply IH. destruct H as [H | (entry & [Heq | Hin] & Hk)].
    + left. destruct (decide ((entry_pair e).1 = k)) as [Hk | Hne].
      * subst k. rewrite lookup_insert_eq. eauto.
      * now rewrite lookup_insert_ne.
    + left. subst entry k. rewrite lookup_insert_eq. eauto.
    + right. now exists entry.
Qed.

Lemma speed_map_lookup (uuids : list string) (k v : string) :
  speed_map uuids !! k = Some v ->
  exists entry, In entry uuids /\ entry_pair entry = (k, v).
Proof.
  intros H. unfold speed_map in H.
  apply speed_fold_lookup in H as [H | H]; [|exact H].
  now rewrite lookup_empty in H.
Qed.

Lemma speed_fold_untouched (l : list string) (m : gmap string string)
    (k : string) :
  (forall e, In e l -> (entry_pair e).1 <> k) ->
  fold_left (fun m entry => <[(entry_pair entry).1 := (entry_pair entry).2]> m)
            l m !! k
  = m !! k.
Proof.
  revert m; induction l as [|e l IH]; intros m H; simpl; [reflexivity|].
  rewrite IH by (intros e' He'; apply H; now right).
  apply lookup_insert_ne, H. now left.
Qed.

Lemma speed_map_last (l1 l2 : list string) (entry : string) :
  (forall e, In e l2 -> (entry_pair e).1 <> (entry_pair entry).1) ->
  speed_map (l1 ++ entry :: l2) !! (entry_pair entry).1
  = Some (entry_pair entry).2.
Proof.
  intros H. unfold speed_map. rewrite fold_left_app. simpl.
  rewrite (speed_fold_untouched l2 _ _ H). apply lookup_insert_eq.
Qed.

Lemma speed_map_snoc (l : list string) (e : string) :
  speed_map (l ++ [e])
  = <[(entry_pair e).1 := (entry_pair e).2]> (speed_map l).
Proof. unfold speed_map. now rewrite fold_left_app. Qed.

(** X10.  Every speed in [speed_map] comes with the identifier of an
    entry of that speed; every entry's speed is a key; and of the entries
    with the same speed the last one of the list gives the identifier,
    wherever in the list it stands: the value under a speed is the
    identifier of the entry of that speed that no entry of the same
    speed follows. *)
Theorem speed_map_holds_the_entries :
  (forall uuids k v,
      speed_map uuids !! k = Some v ->
      exists entry, In entry uuids /\ entry_pair entry = (k, v))
  /\ (forall uuids entry,
        In entry uuids -> is_Some (speed_map uuids !! (entry_pair entry).1))
  /\ (forall uuids entry,
        speed_map (uuids ++ [entry]) !! (entry_pair entry).1
        = Some (entry_pair entry).2)
  /\ speed_map ["1.0:old"; "1.5:fast"; "1.0:new"] !! "1.0" = Some "new"
  /\ (forall before entry after,
        (forall later,
            In later after ->
            (entry_pair later).1 <> (entry_pair entry).1) ->
        speed_map (before ++ entry :: after) !! (entry_pair entry).1
        = Some (entry_pair entry).2)
  /\ (forall uuids k v,
        speed_map uuids !! k = Some v <->
        exists before entry after,
          uuids = before ++ entry :: after
          /\ entry_pair entry = (k, v)
          /\ forall later, In later after -> (entry_pair later).1 <> k)
  /\ speed_map ["1.0:new"; "1.5:fast"; "1.0:old"] !! "1.0" = Some "old"
  /\ speed_map ["1.0:old"; "1.0:new"; "1.5:fast"] !! "1.0" = Some "new".
Proof.
  split; [| split; [| split; [| split; [| split; [| split; [| split]]]]]];
    try reflexivity.
  - apply speed_map_lookup.
  - intros uuids entry Hin. unfold speed_map. apply speed_fold_keys.
    right. now exists entry.
  - intros uuids entry. unfold speed_map. rewrite fold_left_app. simpl.
    apply lookup_insert_eq.
  - intros before entry after. apply speed_map_last.
  - intros uuids k v. split.
    + revert v. induction uuids as [|e l IH] using rev_ind; intros v H.
      * unfold speed_map in H. simpl in H. now rewrite lookup_empty in H.
      * rewrite speed_map_snoc in H.
        destruct (decide ((entry_pair e).1 = k)) as [Hk | Hk].
        -- subst k. rewrite lookup_insert_eq in H. injection H as <-.
           exists l, e, []. split; [reflexivity|].
           split; [apply surjective_pairing|]. intros later [].
        -- rewrite lookup_insert_ne in H by assumption.
           destruct (IH v H) as (before & entry & after & -> & Hp & Hlater).
           exists before, entry, (after ++ [e]).
           split; [now rewrite <- app_assoc|]. split; [exact Hp|].
           intros later Hin. apply in_app_or in Hin as [Hin | [<- | []]].
           ++ now apply Hlater.
           ++ exact Hk.
    + intros (before & entry & after & -> & Hp & Hlater).
      pose proof (speed_map_last before after entry) as H.
      rewrite Hp in H. simpl in H. now apply H.
Qed.

(** X11.  [uuid_from_video_module] returns [False] exactly for a [data]
    without a comma.  With a comma it raises [IndexError], and nothing
    else, exactly when no speed of the map contains ["1.0"]; an
    identifier it returns is the identifier part of one of the listed
    entries, whose speed contains ["1.0"]. *)
Theorem uuid_from_video_module_outcomes (video_module : mongo_module) :
  let text := text_of (unnest (definition_data video_module)) in
  let uuids := split_on "," text in
  (uuid_from_video_module video_module = Return None <->
   occurs "," text = false)
  /\ (uuid_from_video_module video_module = Raise IndexError <->
      occurs "," text = true
      /\ forall k v, speed_map uuids !! k = Some v -> str_in "1.0" k = false)
  /\ (forall uuid,
        uuid_from_video_module video_module = Return (Some uuid) ->
        exists entry k,
          In entry uuids /\ entry_pair entry = (k, uuid)
          /\ str_in "1.0" k = true)
  /\ (forall e, uuid_from_video_module video_module = Raise e -> e = IndexError)
  /\ uuid_from_video_module (video_module_of "0.75:abc,1.5:xyz")
     = Raise IndexError.
Proof.
  intros text uuids.
  destruct (first_normal_speed_spec (map_to_list (speed_map uuids)))
    as (Hraise & Hret & Honly).
  assert (Hitems : forall k v,
             In (k, v) (map_to_list (speed_map uuids))
             <-> speed_map uuids !! k = Some v).
  { intros k v. now rewrite <- list_elem_of_In, elem_of_map_to_list. }
  unfold uuid_from_video_module. fold text. fold uuids.
  destruct (occurs "," text) eqn:Hc.
  - pose proof (split_on_from_several "," text "" Hc) as Hlen.
    fold (split_on "," text) in Hlen. fold uuids in Hlen.
    destruct (Z.eqb_spec (llen uuids) 1) as [E | _]; [unfold llen in E; lia|].
    destruct (first_normal_speed (map_to_list (speed_map uuids)))
      as [uuid | e] eqn:Hf.
    + repeat split; try discriminate.
      * intros [_ H].
        assert (Hr : Return uuid = (Raise IndexError : result string)).
        { apply Hraise. intros k v Hin. apply (H k v). now apply Hitems. }
        discriminate.
      * intros u [= <-]. destruct (Hret _ eq_refl) as [k [Hin Hk]].
        apply Hitems in Hin.
        destruct (speed_map_lookup uuids k uuid Hin)
          as [entry [He Hp]].
        now exists entry, k.
    + pose proof (Honly _ eq_refl) as ->.
      repeat split; try discriminate; try reflexivity.
      * intros k v Hl. apply (proj1 Hraise eq_refl k v). now apply Hitems.
      * now intros e [= <-].
  - pose proof (split_on_from_single "," text "" Hc) as Hone.
    fold (split_on "," text) in Hone. fold uuids in Hone.
    rewrite Hone. simpl.
    repeat split; try discriminate; try reflexivity.
    intros [H _]. discriminate.
Qed.

(** *** The text of a problem *)

Lemma subsequence_refl (s : string) : subsequence s s.
Proof. induction s; constructor; assumption. Qed.

Lemma subsequence_trans (a b c : string) :
  subsequence a b -> subsequence b c -> subsequence a c.
Proof.
  intros Hab Hbc. revert a Hab.
  induction Hbc as [| x b c Hbc IH | x b c Hbc IH]; intros a Hab.
  - exact Hab.
  - inversion Hab; subst.
    + constructor. now apply IH.
    + apply subsequence_drop. now apply IH.
  - apply subsequence_drop. now apply IH.
Qed.

Lemma subsequence_occurs (c : ascii) (sub s : string) :
  subsequence sub s -> occurs c s = false -> occurs c sub = false.
Proof.
  induction 1 as [| x sub s H IH | x sub s H IH]; simpl; intros Hs.
  - reflexivity.
  - apply orb_false_iff in Hs as [Hx Hs]. now rewrite Hx, IH.
  - apply orb_false_iff in Hs as [_ Hs]. now apply IH.
Qed.

Lemma subsequence_length (sub s : string) :
  subsequence sub s -> (String.length sub <= String.length s)%nat.
Proof. induction 1; simpl; lia. Qed.

Lemma delete_from_subsequence (match_len : string -> option nat)
    (skip : nat) (s : string) :
  subsequence (Re.delete_from match_len skip s) s.
Proof.
  revert skip; induction s as [|c s IH]; intros skip; simpl.
  - constructor.
  - destruct skip as [|k]; [destruct (match_len (String c s))|];
      constructor; apply IH.
Qed.

Lemma filter_chars_subsequence (keep : ascii -> bool) (s : string) :
  subsequence (filter_chars keep s) s.
Proof.
  induction s as [|c s IH]; simpl; [constructor|].
  destruct (keep c); constructor; exact IH.
Qed.

Lemma filter_chars_occurs (c : ascii) (s : string) :
  occurs c (filter_chars (fun x => negb (Ascii.eqb x c)) s) = false.
Proof.
  induction s as [|x s IH]; simpl; [reflexivity|].
  destruct (Ascii.eqb x c) eqn:E; simpl; [exact IH|].
  now rewrite E, IH.
Qed.

(** X12.  The text extracted from a problem never holds a backslash,
    and it is what is left of the paragraphs and [<text>] bodies, joined
    by spaces, when some characters are deleted: the three
    substitutions only take characters away. *)
Theorem problem_text_has_no_backslash (data : string) :
  occurs Re.backslash (problem_text data) = false
  /\ subsequence (problem_text data)
       (join " " (Re.findall "<p>" "</p>" data) +:+ " "
        +:+ join " " (Re.findall "<text>" "</text>" data))
  /\ (forall mongo_element text,
        searchable_text_from_problem_data mongo_element = Return text ->
        occurs Re.backslash text = false).
Proof.
  assert (Hno : forall d, occurs Re.backslash (problem_text d) = false).
  { intros d. unfold problem_text, Re.delete.
    eapply subsequence_occurs; [apply delete_from_subsequence|].
    eapply subsequence_occurs; [apply delete_from_subsequence|].
    apply filter_chars_occurs. }
  split; [apply Hno | split].
  - unfold problem_text, Re.delete.
    rewrite (created_addresses _ S) by discriminate.
    rewrite chars_created, append_assoc.
    eapply subsequence_trans; [apply delete_from_subsequence|].
    eapply subsequence_trans; [apply delete_from_subsequence|].
    eapply subsequence_trans; [apply filter_chars_subsequence|].
    apply delete_from_subsequence.
  - intros m text H. unfold searchable_text_from_problem_data in H.
    destruct (definition_text m); [|discriminate].
    injection H as <-. apply Hno.
Qed.

(** *** The bodies found by [re.findall] *)

Lemma starts_with_drop (p s : string) :
  starts_with p s = true -> s = p +:+ drop_chars (String.length p) s.
Proof.
  revert s; induction p as [|x p IH]; intros s H; [reflexivity|].
  destruct s as [|y s]; [discriminate|]. simpl in H.
  apply andb_true_iff in H as [Hxy H]. apply Ascii.eqb_eq in Hxy as ->.
  rewrite append_cons. simpl. f_equal. now apply IH.
Qed.

Lemma lazy_until_spec (close s acc group : string) (n : nat) :
  close <> "" ->
  Re.lazy_until close s acc = Some (group, n) ->
  exists body rest,
    group = acc +:+ body
    /\ s = body +:+ close +:+ rest
    /\ occurs Re.newline body = false
    /\ ~ substring close body.
Proof.
  intros Hclose. revert acc; induction s as [|c s IH]; intros acc H.
  - simpl in H. destruct (starts_with close "") eqn:E; [|discriminate].
    injection H as <- _. apply starts_with_spec in E as [rest E].
    exists "", rest. rewrite append_empty_r. repeat split; try assumption.
    intros (a & b & Hab). destruct a; [|discriminate].
    destruct close; [contradiction | discriminate].
  - simpl in H. destruct (starts_with close (String c s)) eqn:E.
    + injection H as <- _. apply starts_with_spec in E as [rest E].
      exists "", rest. rewrite append_empty_r. repeat split; try assumption.
      intros (a & b & Hab). destruct a; [|discriminate].
      destruct close; [contradiction | discriminate].
    + destruct (Re.is_dot c) eqn:Hdot; [|discriminate].
      apply IH in H as (body & rest & -> & -> & Hnl & Hsub).
      exists (String c body), rest. repeat split.
      * now rewrite append_assoc.
      * simpl. unfold Re.is_dot in Hdot. apply negb_true_iff in Hdot.
        now rewrite Hdot.
      * intros (a & b & Hab). destruct a as [|x a].
        -- rewrite append_empty_l in Hab.
           assert (Hs : starts_with close (String c (body +:+ close +:+ rest))
                        = true).
           { apply starts_with_spec. exists (b +:+ close +:+ rest).
             rewrite <- append_cons, Hab. now rewrite !append_assoc. }
           congruence.
        -- rewrite append_cons in Hab. injection Hab as _ Hab.
           apply Hsub. now exists a, b.
Qed.

Lemma tagged_at_spec (opening closing s group : string) (n : nat) :
  closing <> "" ->
  Re.tagged_at opening closing s = Some (group, n) ->
  occurs Re.newline group = false
  /\ ~ substring closing group
  /\ exists rest, s = opening +:+ group +:+ closing +:+ rest.
Proof.
  intros Hclose H. unfold Re.tagged_at in H.
  destruct (starts_with opening s) eqn:E; [|discriminate].
  destruct (Re.lazy_until closing _ "") as [[g m]|] eqn:Hl; [|discriminate].
  injection H as <- _.
  apply lazy_until_spec in Hl as (body & rest & -> & Hs & Hnl & Hsub);
    [|assumption].
  rewrite append_empty_l. repeat split; try assumption.
  exists rest. rewrite <- Hs. now apply starts_with_drop.
Qed.

Lemma findall_from_spec (opening closing : string) (skip : nat)
    (s group : string) :
  closing <> "" ->
  In group (Re.findall_from (Re.tagged_at opening closing) skip s) ->
  occurs Re.newline group = false
  /\ ~ substring closing group
  /\ substring (opening +:+ group +:+ closing) s.
Proof.
  intros Hclose. revert skip; induction s as [|c s IH]; intros skip H.
  - contradiction.
  - assert (Htail : forall k,
               In group (Re.findall_from (Re.tagged_at opening closing) k s) ->
               occurs Re.newline group = false
               /\ ~ substring closing group
               /\ substring (opening +:+ group +:+ closing) (String c s)).
    { intros k Hk. apply IH in Hk as (Hnl & Hsub & (a & b & Hab)).
      repeat split; try assumption.
      exists (String c a), b. now rewrite append_cons, Hab. }
    simpl in H. destruct skip as [|k]; [|now apply (Htail k)].
    destruct (Re.tagged_at opening closing (String c s)) as [[g n]|] eqn:Ht;
      [|now apply (Htail 0%nat)].
    destruct H as [<- | H]; [|now apply (Htail (pred n))].
    apply tagged_at_spec in Ht as (Hnl & Hsub & (rest & Hs)); [|assumption].
    repeat split; try assumption.
    exists "", rest. now rewrite append_empty_l, !append_assoc, Hs.
Qed.

(** X13.  Every paragraph and every [<text>] body that the problem
    extractor collects stands in the data between its two tags, is on
    one line, and ends at the first closing tag: it holds no newline
    and no closing tag. *)
Theorem problem_bodies_are_single_line_tag_bodies (data group : string) :
  (In group (Re.findall "<p>" "</p>" data) ->
   occurs Re.newline group = false
   /\ ~ substring "</p>" group
   /\ substring ("<p>" +:+ group +:+ "</p>") data)
  /\ (In group (Re.findall "<text>" "</text>" data) ->
      occurs Re.newline group = false
      /\ ~ substring "</text>" group
      /\ substring ("<text>" +:+ group +:+ "</text>") data).
Proof.
  split; intros H; apply (findall_from_spec _ _ 0%nat); try assumption;
    discriminate.
Qed.

(** *** The text of a pdf *)

Lemma newlines_to_spaces_occurs (s : string) :
  occurs Re.newline (newlines_to_spaces s) = false.
Proof.
  induction s as [|c s IH]; simpl; [reflexivity|].
  rewrite IH. destruct (Ascii.eqb c Re.newline) eqn:E; [reflexivity|].
  now rewrite E.
Qed.

Lemma newlines_to_spaces_all (p : ascii -> bool) (s : string) :
  p " "%char = true -> all_chars p s = true ->
  all_chars p (newlines_to_spaces s) = true.
Proof.
  intros Hp. induction s as [|c s IH]; simpl; [reflexivity|].
  intros H. apply andb_true_iff in H as [Hc Hs]. rewrite (IH Hs).
  destruct (Ascii.eqb c Re.newline); now rewrite ?Hp, ?Hc.
Qed.

Lemma filter_chars_all (p : ascii -> bool) (s : string) :
  all_chars p (filter_chars p s) = true.
Proof.
  induction s as [|c s IH]; simpl; [reflexivity|].
  destruct (p c) eqn:E; simpl; now rewrite ?E, IH.
Qed.

Lemma filter_chars_id (p : ascii -> bool) (s : string) :
  all_chars p s = true -> filter_chars p s = s.
Proof.
  induction s as [|c s IH]; simpl; [reflexivity|].
  intros H. apply andb_true_iff in H as [Hc Hs]. now rewrite Hc, IH.
Qed.

Lemma newlines_to_spaces_id (s : string) :
  occurs Re.newline s = false -> newlines_to_spaces s = s.
Proof.
  induction s as [|c s IH]; simpl; [reflexivity|].
  intros H. apply orb_false_iff in H as [Hc Hs]. now rewrite Hc, IH.
Qed.

Lemma newlines_to_spaces_length (s : string) :
  String.length (newlines_to_spaces s) = String.length s.
Proof. induction s as [|c s IH]; simpl; [reflexivity | now rewrite IH]. Qed.

(** X14.  [pdf_to_text] returns one line of ASCII: no newline and no
    character from 128 on, whatever pdfminer produced, never longer than
    that; the empty string on a [PDFSyntaxError]; and pdfminer's text
    unchanged when that already is one line of ASCII. *)
Theorem pdf_to_text_is_one_ascii_line
    (process_pdf : string -> option string) (data : string) :
  occurs Re.newline (pdf_to_text process_pdf data) = false
  /\ all_chars (fun c => Nat.ltb (code c) 128) (pdf_to_text process_pdf data)
     = true
  /\ (process_pdf data = None -> pdf_to_text process_pdf data = "")
  /\ (forall text,
        process_pdf data = Some text ->
        (String.length (pdf_to_text process_pdf data) <= String.length text)%nat
        /\ (all_chars (fun c => Nat.ltb (code c) 128) text = true ->
            occurs Re.newline text = false ->
            pdf_to_text process_pdf data = text)).
Proof.
  unfold pdf_to_text. destruct (process_pdf data) as [text|].
  - repeat split; try discriminate.
    + apply newlines_to_spaces_occurs.
    + apply newlines_to_spaces_all; [reflexivity|]. apply filter_chars_all.
    + injection H as <-. rewrite newlines_to_spaces_length.
      apply subsequence_length, filter_chars_subsequence.
    + injection H as <-. intros Hascii Hnl. unfold only_ascii.
      rewrite (filter_chars_id _ _ Hascii). now apply newlines_to_spaces_id.
  - repeat split; try discriminate.
Qed.

(** *** The bulk format *)

Lemma split_on_two_lines (a b rest : string) :
  occurs Re.newline a = false -> occurs Re.newline b = false ->
  split_on Re.newline
    (a +:+ String Re.newline "" +:+ b +:+ String Re.newline "" +:+ rest)
  = a :: b :: split_on Re.newline rest.
Proof.
  intros Ha Hb. unfold split_on.
  change (String Re.newline "" +:+ b +:+ String Re.newline "" +:+ rest)
    with (String Re.newline (b +:+ String Re.newline rest)).
  now rewrite (split_on_from_cut _ _ _ _ Ha), (split_on_from_cut _ _ _ _ Hb).
Qed.

(** X15.  When neither [json.dumps] output holds a newline,
    [bulk_index_item] is two lines, the action and the document, each
    closed by a newline; cut at the newlines, an item followed by more
    bulk text gives back its action, its document, and the lines of the
    rest. *)
Theorem bulk_index_item_is_two_lines `{!Services}
    (json_dumps_action : string -> string -> string -> string)
    (index : string) (data : document) :
  occurs Re.newline (json_dumps_action index (type_hash data) (hash data))
  = false ->
  occurs Re.newline (json_dumps data) = false ->
  split_on Re.newline (bulk_index_item json_dumps_action index data)
  = [json_dumps_action index (type_hash data) (hash data);
     json_dumps data; ""]
  /\ forall rest,
      split_on Re.newline
        (bulk_index_item json_dumps_action index data +:+ rest)
      = json_dumps_action index (type_hash data) (hash data)
        :: json_dumps data :: split_on Re.newline rest.
Proof.
  intros Ha Hb.
  assert (Hrest : forall rest,
             split_on Re.newline
               (bulk_index_item json_dumps_action index data +:+ rest)
             = json_dumps_action index (type_hash data) (hash data)
               :: json_dumps data :: split_on Re.newline rest).
  { intros rest. unfold bulk_index_item.
    rewrite append_empty_l, !append_assoc.
    now apply split_on_two_lines. }
  split; [|exact Hrest].
  rewrite <- (append_empty_r (bulk_index_item _ _ _)). apply Hrest.
Qed.

(** Two documents in one bulk body, with stand-ins for [json.dumps]
    that write no newline. *)
Lemma bulk_index_item_is_two_lines_witness :
  let services := two_problems true in
  let action := fun index type_ id_ : string =>
    index +:+ "/" +:+ type_ +:+ "/" +:+ id_ in
  let d1 := {| id := "p1"; hash := "h1"; display_name := "one";
               course_id := "MITx/6.002x/2012_Fall";
               searchable_text := Str "What is 2+2? ";
               thumbnail := "t"; type_hash := "c" |} in
  let d2 := {| id := "p2"; hash := "h2"; display_name := "two";
               course_id := "MITx/6.002x/2012_Fall";
               searchable_text := Str "What is 3+3? ";
               thumbnail := "t"; type_hash := "c" |} in
  split_on Re.newline
    (bulk_index_item action "problem-index" d1
     +:+ bulk_index_item action "problem-index" d2)
  = ["problem-index/c/h1"; "p1"; "problem-index/c/h2"; "p2"; ""].
Proof.
  intros services action d1 d2.
  destruct (bulk_index_item_is_two_lines action "problem-index" d1)
    as [_ H1]; [reflexivity | reflexivity |].
  destruct (bulk_index_item_is_two_lines action "problem-index" d2)
    as [H2 _]; [reflexivity | reflexivity |].
  rewrite H1, H2. reflexivity.
Defined.

(** *** Thumbnails *)



Lemma thumbnail_from_video_module_cases (video_module : mongo_module)
    (url : string) :
  thumbnail_from_video_module video_module = Return url ->
  (mentions_youku (definition_data video_module) = true
   /\ starts_with "https://" url = true)
  \/ (mentions_youku (definition_data video_module) = false
      /\ starts_with "http://img.youtube.com/vi/" url = true).
Proof.
  unfold thumbnail_from_video_module.
  destruct (mentions_youku (definition_data video_module)).
  - intros [= <-]. now left.
  - destruct (uuid_from_video_module video_module) as [[uuid|]|e];
      [| |discriminate]; intros [= <-]; now right.
Qed.

(** X16.  The thumbnail of a search result starts with [http://] or
    with the base64 image prefix.  A video's thumbnail from the indexer
    passes unchanged when it is a YouTube address; the Youku icon,
    an [https://] address, and the markup of a problem are taken for
    base64 image data and prefixed. *)
Theorem result_thumbnail_of_indexed_thumbnails :
  (forall thumbnail,
      starts_with "http://" (ModelsRest.result_thumbnail thumbnail) = true
      \/ ModelsRest.result_thumbnail thumbnail
         = "data:image/jpg;base64," +:+ thumbnail)
  /\ (forall video_module url,
        thumbnail_from_video_module video_module = Return url ->
        url <> ""
        /\ ModelsRest.result_thumbnail url
           = if mentions_youku (definition_data video_module)
             then "data:image/jpg;base64," +:+ url else url)
  /\ (forall html,
        ModelsRest.result_thumbnail (thumbnail_from_html html)
        = "data:image/jpg;base64," +:+ thumbnail_from_html html)
  /\ (forall tokenize jump_to_url entry query result,
        ModelsRest.SearchResult_init tokenize jump_to_url entry query
        = Some result ->
        exists thumbnail,
          entry !! "thumbnail" = Some thumbnail
          /\ Models.thumbnail result = ModelsRest.result_thumbnail thumbnail
          /\ Models.data result = entry).
Proof.
  split; [| split; [| split]].
  - intros t. unfold ModelsRest.result_thumbnail.
    destruct (starts_with "http://" t) eqn:E; [now left | now right].
  - intros vm url H.
    destruct (thumbnail_from_video_module_cases _ _ H) as [[Hy Hs] | [Hy Hs]];
      rewrite Hy; (split; [intros ->; discriminate|]);
      unfold ModelsRest.result_thumbnail.
    + apply starts_with_spec in Hs as [rest ->]. reflexivity.
    + apply starts_with_spec in Hs as [rest ->]. reflexivity.
  - reflexivity.
  - intros tokenize jump entry query result H.
    unfold ModelsRest.SearchResult_init in H.
    destruct (jump entry) as [url|]; [|discriminate]. simpl in H.
    destruct (entry !! "thumbnail") as [t|]; [|discriminate]. simpl in H.
    destruct (entry !! "searchable_text") as [text|]; [|discriminate].
    injection H as <-. now exists t.
Qed.

(** *** Transcripts *)



(** *** Building a document *)

Section BuildingRest.

Context {services : Services}.

(** The document that [basic_dict] assembles from its parts. *)
Lemma basic_dict_run (m : mongo_module) (type_ : string) (w : world) :
  basic_dict m type_ w
  = match cached_offering m w with
    | (Raise e, w1) => (Raise e, w1)
    | (Return offering, w1) =>
        match get_searchable_text m type_ with
        | Raise e => (Raise e, w1)
        | Return text =>
            match get_thumbnail m type_ with
            | Raise e => (Raise e, w1)
            | Return thumbnail =>
                (Return
                   {| id := json_dumps_id (_id m);
                      hash := sha1_hexdigest (json_dumps_id (_id m));
                      display_name :=
                        match metadata m with
                        | Some (Some display_name) => display_name
                        | _ => ""
                        end +:+ " (" +:+ course (_id m) +:+ ")";
                      course_id :=
                        join "/" [org (_id m); course (_id m); offering];
                      searchable_text := text;
                      thumbnail := thumbnail;
                      type_hash :=
                        sha1_hexdigest
                          (join "/" [org (_id m); course (_id m); offering]) |},
                 w1)
            end
        end
    end.
Proof.
  unfold basic_dict, bind, lift, ret.
  destruct (cached_offering m w) as [[offering | e] w1]; [|reflexivity].
  destruct (get_searchable_text m type_); [|reflexivity].
  destruct (get_thumbnail m type_); reflexivity.
Qed.

Lemma cached_offering_cases (m : mongo_module) (w : world) :
  (exists offering,
      MONGO_COURSE_CACHE w !! course (_id m) = Some offering
      /\ offering <> ""
      /\ cached_offering m w = (Return offering, w))
  \/ (exists name,
        find_course (course (_id m)) = Some name
        /\ (MONGO_COURSE_CACHE w !! course (_id m) = None
            \/ MONGO_COURSE_CACHE w !! course (_id m) = Some "")
        /\ cached_offering m w
           = (Return name,
              {| MONGO_COURSE_CACHE :=
                   <[course (_id m) := name]> (MONGO_COURSE_CACHE w);
                 wire := wire w |}))
  \/ (find_course (course (_id m)) = None
      /\ cached_offering m w = (Raise TypeError, w)).
Proof.
  unfold cached_offering, course_name_from_mongo_module.
  destruct (MONGO_COURSE_CACHE w !! course (_id m)) as [offering|] eqn:Hc.
  - destruct (String.eqb_spec offering "") as [-> | Hne]; simpl.
    + destruct (find_course (course (_id m))) as [name|].
      * right. left. exists name. repeat split. now right.
      * right. right. now split.
    + left. now exists offering.
  - destruct (find_course (course (_id m))) as [name|].
    + right. left. exists name. repeat split. now left.
    + right. right. now split.
Qed.

Lemma cached_offering_again (m : mongo_module) (w w1 : world)
    (offering : string) :
  cached_offering m w = (Return offering, w1) ->
  cached_offering m w1 = (Return offering, w1)
  /\ MONGO_COURSE_CACHE w1 !! course (_id m) = Some offering.
Proof.
  intros H.
  destruct (cached_offering_cases m w)
    as [(o & Hc & Hne & E) | [(name & Hf & Hc & E) | (Hf & E)]];
    rewrite E in H; [| |discriminate]; injection H as <- <-.
  - split; assumption.
  - split; [|simpl; apply lookup_insert_eq].
    unfold cached_offering, course_name_from_mongo_module. simpl.
    rewrite lookup_insert_eq, Hf.
    destruct (String.eqb name ""); simpl; [|reflexivity].
    now rewrite insert_insert_eq.
Qed.

Lemma cached_offering_keeps (m : mongo_module) (w : world) (k v : string) :
  v <> "" ->
  MONGO_COURSE_CACHE w !! k = Some v ->
  MONGO_COURSE_CACHE (cached_offering m w).2 !! k = Some v.
Proof.
  intros Hv Hk.
  destruct (cached_offering_cases m w)
    as [(o & Hc & Hne & E) | [(name & Hf & Hc & E) | (Hf & E)]];
    rewrite E; simpl; try assumption.
  destruct (decide (course (_id m) = k)) as [<- | Hne].
  - destruct Hc as [Hc | Hc]; rewrite Hc in Hk; [discriminate|].
    injection Hk as <-. contradiction.
  - now rewrite lookup_insert_ne.
Qed.

Lemma basic_dict_keeps (m : mongo_module) (type_ : string) (w : world)
    (k v : string) :
  v <> "" ->
  MONGO_COURSE_CACHE w !! k = Some v ->
  MONGO_COURSE_CACHE (basic_dict m type_ w).2 !! k = Some v.
Proof.
  intros Hv Hk. rewrite basic_dict_run.
  pose proof (cached_offering_keeps m w k v Hv Hk) as H.
  destruct (cached_offering m w) as [[offering | e] w1]; [|exact H].
  destruct (get_searchable_text m type_); [|exact H].
  destruct (get_thumbnail m type_); exact H.
Qed.

(** X18.  Building the document of an item a second time, in the state
    the first time has left, gives the same document and changes
    nothing: the offering name then comes from [MONGO_COURSE_CACHE], which
    holds it under the item's course.  Identifier and hash depend on the
    [_id] alone, and the type hash on the course identifier alone. *)
Theorem basic_dict_is_repeatable (m : mongo_module) (type_ : string)
    (w w1 : world) (data : document) :
  basic_dict m type_ w = (Return data, w1) ->
  basic_dict m type_ w1 = (Return data, w1)
  /\ (exists offering,
        MONGO_COURSE_CACHE w1 !! course (_id m) = Some offering
        /\ course_id data = join "/" [org (_id m); course (_id m); offering])
  /\ id data = json_dumps_id (_id m)
  /\ hash data = sha1_hexdigest (json_dumps_id (_id m))
  /\ type_hash data = sha1_hexdigest (course_id data).
Proof.
  intros H. rewrite basic_dict_run in H. rewrite basic_dict_run.
  destruct (cached_offering m w) as [[offering | e] w'] eqn:Hc; [|discriminate].
  destruct (get_searchable_text m type_) as [text | e]; [|discriminate].
  destruct (get_thumbnail m type_) as [thumb | e]; [|discriminate].
  injection H as <- <-.
  destruct (cached_offering_again _ _ _ _ Hc) as [Hagain Hcache].
  rewrite Hagain. repeat split. now exists offering.
Qed.

End BuildingRest.

(** The first problem of the course of two, built twice. *)
Lemma basic_dict_is_repeatable_witness :
  let services := two_problems true in
  let item := problem_module_of "p1" "<p>What is 2+2?</p>" in
  let built := basic_dict item "problem" empty_world in
  exists data,
    built.1 = Return data
    /\ basic_dict item "problem" built.2 = (Return data, built.2)
    /\ MONGO_COURSE_CACHE built.2 !! "6.002x" = Some "2012_Fall"
    /\ course_id data = "MITx/6.002x/2012_Fall".
Proof.
  intros services item built.
  destruct built as [r w1] eqn:Hb.
  assert (Hr : exists data, r = Return data).
  { apply (f_equal fst) in Hb. vm_compute in Hb. subst r. eauto. }
  destruct Hr as [data ->].
  destruct (basic_dict_is_repeatable item "problem" empty_world w1 data Hb)
    as (Hagain & _ & _).
  exists data. repeat split; try exact Hagain.
  - apply (f_equal snd) in Hb. simpl in Hb. subst w1. vm_compute. reflexivity.
  - apply (f_equal fst) in Hb. vm_compute in Hb. injection Hb as <-.
    reflexivity.
Defined.

(** *** What keeps a document from being sent *)




Section OrchestratingRest.

Context {services : Services}.





End OrchestratingRest.



(** *** A whole course *)

Section CourseRest.

Context {services : Services}.

Lemma attempt_loop_cache (n : nat) (c : call) (response : option Response)
    (w : world) :
  MONGO_COURSE_CACHE (attempt_loop n c response w).2 = MONGO_COURSE_CACHE w.
Proof.
  revert w; induction n as [|n IH]; intros w; simpl; [reflexivity|].
  destruct (request (wire w) c) as [r | []]; simpl; try reflexivity.
  now rewrite IH.
Qed.

Lemma submit_cache (index : string) (data : document) (w : world) :
  MONGO_COURSE_CACHE (submit index data w).2 = MONGO_COURSE_CACHE w.
Proof.
  destruct (complete data) eqn:Hc.
  - rewrite (submit_run _ _ _ Hc).
    pose proof (attempt_loop_cache 2 (post_call index data) None w) as H.
    destruct (attempt_loop 2 (post_call index data) None w)
      as [[[r|]|e] w1]; exact H.
  - now rewrite (submit_incomplete _ _ _ Hc).
Qed.

Lemma index_item_keeps (item : mongo_module) (w : world) (k v : string) :
  v <> "" ->
  MONGO_COURSE_CACHE w !! k = Some v ->
  MONGO_COURSE_CACHE (index_item item w).2 !! k = Some v.
Proof.
  intros Hv Hk. rewrite index_item_dispatch.
  destruct (dispatch item) as [[type_ index]|]; [|exact Hk].
  unfold bind. pose proof (basic_dict_keeps item type_ w k v Hv Hk) as H.
  destruct (basic_dict item type_ w) as [[data | e] w1]; [|exact H].
  simpl in H. now rewrite submit_cache.
Qed.

Lemma index_item_wire_le (item : mongo_module) (w : world) :
  (length (wire (index_item item w).2) <= length (wire w) + 2)%nat.
Proof.
  destruct (index_item_calls item w)
    as [-> | (type_ & index & data & w1 & made & _ & _ & _ & Hm & ->)];
    [lia|].
  rewrite length_app, length_replicate. lia.
Qed.

(** X21.  Over a whole course the indexer never changes an offering
    name that [MONGO_COURSE_CACHE] holds, never takes a call back from
    the network, and makes at most two calls for each item. *)
Theorem index_course_keeps_cache_and_bounds_calls
    (course : string) (w : world) :
  (forall k v,
      v <> "" ->
      MONGO_COURSE_CACHE w !! k = Some v ->
      MONGO_COURSE_CACHE (index_course course w).2 !! k = Some v)
  /\ (exists calls, wire (index_course course w).2 = wire w ++ calls)
  /\ (length (wire (index_course course w).2)
      <= length (wire w) + 2 * length (find_modules_for_course course))%nat.
Proof.
  unfold index_course.
  generalize (find_modules_for_course course) as items.
  intros items. revert w. induction items as [|item items IH]; intros w.
  - simpl. split; [intros k v _ Hk; exact Hk|].
    split; [exists []; now rewrite app_nil_r | lia].
  - simpl. unfold bind.
    pose proof (index_item_keeps item w) as Hkeep.
    pose proof (index_item_wire_le item w) as Hle.
    assert (Happ : exists calls, wire (index_item item w).2 = wire w ++ calls).
    { destruct (index_item_calls item w)
        as [-> | (? & ? & ? & ? & made & _ & _ & _ & _ & ->)].
      - exists []. now rewrite app_nil_r.
      - eauto. }
    destruct (index_item item w) as [[[] | e] w1]; simpl in *.
    + destruct (IH w1) as (IHk & [calls2 IHc] & IHl).
      destruct Happ as [calls1 Hc1]. split; [| split].
      * intros k v Hv Hk. apply IHk; [assumption|]. now apply Hkeep.
      * exists (calls1 ++ calls2). now rewrite IHc, Hc1, app_assoc.
      * lia.
    + split; [exact Hkeep | split; [exact Happ | lia]].
Qed.

Lemma submit_answered (index : string) (data : document) (w : world) :
  always_answers ->
  (submit index data w).1 = Return tt
  /\ (length (wire (submit index data w).2) <= length (wire w) + 1)%nat.
Proof.
  intros Hans. destruct (complete data) eqn:Hc.
  - rewrite (submit_run _ _ _ Hc).
    destruct (Hans (wire w) (post_call index data)) as [r Hr].
    change (attempt_loop 2 (post_call index data) None w)
      with (match request (wire w) (post_call index data) with
            | Responds r => (Return (Some r), sent (post_call index data) w)
            | Throws RequestException =>
                attempt_loop 1 (post_call index data) None
                             (sent (post_call index data) w)
            | Throws e => (Raise e, sent (post_call index data) w)
            end).
    rewrite Hr. simpl. split; [reflexivity|].
    rewrite length_app. simpl. lia.
  - rewrite (submit_incomplete _ _ _ Hc). simpl. split; [reflexivity | lia].
Qed.

(** X22.  On an engine that answers every call, each item costs at
    most one call, and the only thing that can end the run early is an
    exception raised while the document of an item is built. *)
Theorem index_course_on_answering_engine (course : string) (w : world) :
  always_answers ->
  (length (wire (index_course course w).2)
   <= length (wire w) + length (find_modules_for_course course))%nat
  /\ forall e,
      (index_course course w).1 = Raise e ->
      exists item type_ index w0 w1,
        In item (find_modules_for_course course)
        /\ dispatch item = Some (type_, index)
        /\ basic_dict item type_ w0 = (Raise e, w1).
Proof.
  intros Hans. unfold index_course.
  generalize (find_modules_for_course course) as items.
  intros items. revert w. induction items as [|item items IH]; intros w.
  - simpl. split; [lia | discriminate].
  - simpl. unfold bind.
    assert (Hitem :
      (exists w1, index_item item w = (Return tt, w1)
                  /\ (length (wire w1) <= length (wire w) + 1)%nat)
      \/ (exists e type_ index w1,
            dispatch item = Some (type_, index)
            /\ basic_dict item type_ w = (Raise e, w1)
            /\ index_item item w = (Raise e, w1)
            /\ wire w1 = wire w)).
    { rewrite index_item_dispatch.
      destruct (dispatch item) as [[type_ index]|] eqn:Hd;
        [| left; exists w; split; [reflexivity | lia]].
      unfold bind. pose proof (basic_dict_wire item type_ w) as Hw.
      destruct (basic_dict item type_ w) as [[data | e] w1] eqn:Hb;
        simpl in Hw.
      - left. destruct (submit_answered index data w1 Hans) as [Hr Hl].
        destruct (submit index data w1) as [[[]|e] w2]; simpl in *;
          [|discriminate].
        exists w2. split; [reflexivity | rewrite <- Hw; exact Hl].
      - right. now exists e, type_, index, w1. }
    destruct Hitem as [(w1 & -> & Hl) | (e & type_ & index & w1 & Hd & Hb & -> & Hw)].
    + destruct (IH w1) as [IHl IHe].
      split; [change (length (item :: items)) with (S (length items)); lia|].
      intros e He. destruct (IHe e He) as (it & t & i & w0 & w2 & Hin & Hrest).
      exists it, t, i, w0, w2. split; [now right | exact Hrest].
    + split; [simpl; rewrite Hw; lia|]. intros e' [= <-].
      exists item, type_, index, w, w1. split; [now left | now split].
Qed.

End CourseRest.

(** The course of two problems on the engine that answers: two items,
    two calls. *)
Lemma index_course_on_answering_engine_witness :
  let services := two_problems true in
  (length (wire (index_course "6.002x" empty_world).2) <= 0 + 2)%nat
  /\ (index_course "6.002x" empty_world).1 = Return tt.
Proof.
  intros services.
  destruct (index_course_on_answering_engine "6.002x" empty_world) as [Hl _].
  - intros log c. eexists. reflexivity.
  - split; [exact Hl | vm_compute; reflexivity].
Defined.

End EsRequestsRestFacts.
